(** * Outbreak dashboard: convex hull, risk labels, capacity stress,
      simulator request and chart formatting, symptom checker.

    JavaScript numbers are modelled as exact rationals in canonical form
    ([Qc]), so that [===] on numbers is Leibniz equality and arithmetic
    is the exact one (rounding, NaN and signed zero are left out). *)

From Stdlib Require Import String Ascii DecimalString.
From Stdlib Require Import List ZArith QArith Qcanon Bool.
From Stdlib Require Import Lia Lqa Permutation Sorted Mergesort Orders.
Import ListNotations.

Local Open Scope Qc_scope.

(** ** Numbers *)

Definition number : Set := Qc.

(** An integer literal of the source, as a number. *)
Definition num (z : Z) : number := Q2Qc (inject_Z z).

(** [a === b] on numbers. *)
Definition num_eqb (a b : number) : bool :=
  match a ?= b with Eq => true | _ => false end.

(** [a <= b] on numbers. *)
Definition num_leb (a b : number) : bool :=
  match a ?= b with Gt => false | _ => true end.

(** [a > b] on numbers. *)
Definition num_gtb (a b : number) : bool :=
  match a ?= b with Gt => true | _ => false end.

Lemma num_eqb_eq (a b : number) : num_eqb a b = true <-> a = b.
Proof.
  unfold num_eqb. rewrite Qceq_alt.
  destruct (a ?= b); split; congruence.
Qed.

Lemma num_eqb_refl (a : number) : num_eqb a a = true.
Proof. now apply num_eqb_eq. Qed.

Lemma num_eqb_sym (a b : number) : num_eqb a b = num_eqb b a.
Proof.
  destruct (num_eqb a b) eqn:E, (num_eqb b a) eqn:E'; trivial.
  - apply num_eqb_eq in E. subst. now rewrite num_eqb_refl in E'.
  - apply num_eqb_eq in E'. subst. now rewrite num_eqb_refl in E.
Qed.

Lemma num_leb_le (a b : number) : num_leb a b = true <-> a <= b.
Proof.
  unfold num_leb. rewrite Qcle_alt.
  destruct (a ?= b); split; congruence.
Qed.

Lemma num_gtb_gt (a b : number) : num_gtb a b = true <-> b < a.
Proof.
  unfold num_gtb. change (b < a) with (a > b). rewrite Qcgt_alt.
  destruct (a ?= b); split; congruence.
Qed.

Lemma num_gtb_le (a b : number) : num_gtb a b = false <-> a <= b.
Proof.
  unfold num_gtb. rewrite Qcle_alt.
  destruct (a ?= b); split; congruence.
Qed.

(** Goals and hypotheses on [Qc] read on [Q], where [lra] decides them. *)
Ltac qc_unfold :=
  unfold num in *;
  unfold Qcle, Qclt, Qcdiv, Qcinv, Qcminus, Qcplus, Qcopp, Qcmult, Q2Qc in *;
  cbn [this] in *;
  rewrite ?Qred_correct in *;
  change (inject_Z 0) with (0 # 1)%Q in *;
  repeat match goal with
    | |- context [inject_Z (Zpos ?p)] =>
        change (inject_Z (Zpos p)) with (Zpos p # 1)%Q in *
    | H : context [inject_Z (Zpos ?p)] |- _ =>
        change (inject_Z (Zpos p)) with (Zpos p # 1)%Q in *
    end.

Ltac qc_lra := qc_unfold; lra.

(** [xs.reduce((a, b) => a + b, 0) / xs.length], the coordinate average
    that RiskSidebar and ClusterMap both compute.  On an empty array the
    quotient is [0 / 0], not a number: [None].  The value is the exact
    one; the one of the source can differ from it by rounding, and no
    property below rests on it. *)
Definition average (xs : list number) : option number :=
  match xs with
  | [] => None
  | _ => Some (fold_left Qcplus xs 0 / num (Z.of_nat (List.length xs)))
  end.

(** ** frontend/utils/convexHull.ts *)

Module ConvexHull.

(** [interface Point { latitude: number; longitude: number }] *)
Record Point : Set := mkPoint { latitude : number; longitude : number }.

(** The output tuple [[lat, lon]]. *)
Definition Tuple : Set := (number * number)%type.

(** [p => [p.latitude, p.longitude]] *)
Definition toTuple (p : Point) : Tuple := (latitude p, longitude p).

(** The comparator handed to [sort]: longitude first, latitude on ties. *)
Definition compare_points (a b : Point) : number :=
  if num_eqb (longitude a) (longitude b)
  then latitude a - latitude b
  else longitude a - longitude b.

(** [cross(o, a, b)]: cross product of the vectors OA and OB. *)
Definition cross (o a b : Point) : number :=
  (longitude a - longitude o) * (latitude b - latitude o)
  - (latitude a - latitude o) * (longitude b - longitude o).

(** [Array.prototype.sort] with [compare_points]: [a] may stay before [b]
    when the comparator's result is not positive.  The engine's sort is a
    merge sort; the Standard Library's one stands for it (the comparator
    is a total order on points, so every sort gives the same array). *)
Module PointOrder <: TotalLeBool.
Definition t : Type := Point.
Definition leb (a b : Point) : bool := num_leb (compare_points a b) 0.
Lemma leb_total : forall a b, leb a b = true \/ leb b a = true.
Proof.
  intros a b. unfold leb. rewrite !num_leb_le.
  unfold compare_points.
  destruct (num_eqb (longitude a) (longitude b)) eqn:E.
  - apply num_eqb_eq in E. rewrite E, num_eqb_refl.
    destruct (Qclt_le_dec (latitude a) (latitude b)); [left | right]; qc_lra.
  - rewrite num_eqb_sym, E.
    destruct (Qclt_le_dec (longitude a) (longitude b)); [left | right]; qc_lra.
Qed.
End PointOrder.

Module PointSort := Sort PointOrder.

(** [[...points].sort(...)] *)
Definition sorted_points (points : list Point) : list Point :=
  PointSort.sort points.

(** The inner [while] of both hull loops.  The array under construction is
    kept back to front: the head of the list is [hull[hull.length - 1]],
    the next element is [hull[hull.length - 2]].  Each round pops the last
    element while there are two or more and the turn is not strictly
    counter-clockwise. *)
Fixpoint pop_while (hull : list Point) (p : Point) : list Point :=
  match hull with
  | last :: ((prev :: _) as rest) =>
      if num_leb (cross prev last p) 0 then pop_while rest p else hull
  | _ => hull
  end.

(** One round of a hull loop: the [while], then [hull.push(p)]. *)
Definition hull_step (hull : list Point) (p : Point) : list Point :=
  p :: pop_while hull p.

(** A whole hull loop over the points in the order given, from [[]]. *)
Definition build_hull (ps : list Point) : list Point :=
  fold_left hull_step ps [].

(** [hull.pop()] on the back-to-front list: drops the last pushed point
    (nothing happens on an empty array). *)
Definition pop (hull : list Point) : list Point := tl hull.

(** [getConvexHull(points)] *)
Definition getConvexHull (points : list Point) : list Tuple :=
  if (length points <? 3)%nat then map toTuple points
  else
    let sorted := sorted_points points in
    let lower := build_hull sorted in
    let upper := build_hull (rev sorted) in
    let hullStub := rev (pop lower) ++ rev (pop upper) in
    map toTuple hullStub.

(** A point with integer coordinates, [pt lat lon]. *)
Definition pt (lat lon : Z) : Point := mkPoint (num lat) (num lon).

End ConvexHull.

(** ** RiskSidebar (the sidebar of active risk zones) *)

Module RiskSidebar.

(** A member hospital of a cluster, as the sidebar reads it. *)
Record Member : Set := mkMember {
  name : string;
  member_latitude : number;
  member_longitude : number }.

Record Cluster : Set := mkCluster {
  cluster_id : Z;
  members : list Member }.

(** [cluster.members.length > 3 ? "High" : "Moderate"] *)
Definition riskLevel (cluster : Cluster) : string :=
  if (3 <? List.length (members cluster))%nat
  then "High"%string else "Moderate"%string.

(** A cluster of [n] members named alike, at the origin. *)
Definition cluster_of_size (n : nat) : Cluster :=
  mkCluster 1 (repeat (mkMember "H"%string (num 0) (num 0)) n).

(** The comparator of [sortedClusters]:
    [(a, b) => b.members.length - a.members.length]. *)
Definition compare_clusters (a b : Cluster) : Z :=
  Z.of_nat (List.length (members b)) - Z.of_nat (List.length (members a)).

(** [[...clusters].sort(compare)]: the sort of arrays is stable, and a
    stable insertion sort stands for it.  A cluster goes before the first
    one that the comparator does not put before it. *)
Fixpoint insert_cluster (c : Cluster) (sorted : list Cluster)
  : list Cluster :=
  match sorted with
  | [] => [c]
  | d :: rest =>
      if (compare_clusters c d <=? 0)%Z then c :: d :: rest
      else d :: insert_cluster c rest
  end.

Definition sortedClusters (clusters : list Cluster) : list Cluster :=
  fold_right insert_cluster [] clusters.

(** The centre [(lat, lon)] handed to [onSelectCluster]. *)
Definition clusterCenter (cluster : Cluster)
  : option number * option number :=
  (average (map member_latitude (members cluster)),
   average (map member_longitude (members cluster))).

(** One card of the sidebar: the key, the risk badge, the centre flown
    to on a click, the count of facilities, the names listed
    ([members.slice(0, 3)]) and the count of the [+ n more...] line, when
    there is one. *)
Record Card : Set := mkCard {
  card_key : Z;
  card_risk : string;
  card_center : option number * option number;
  card_facilities : nat;
  card_names : list string;
  card_more : option nat }.

(** The body of [sortedClusters.map]. *)
Definition card (cluster : Cluster) : Card :=
  mkCard (cluster_id cluster)
         (riskLevel cluster)
         (clusterCenter cluster)
         (List.length (members cluster))
         (map name (firstn 3 (members cluster)))
         (if (3 <? List.length (members cluster))%nat
          then Some (List.length (members cluster) - 3)%nat else None).

(** The cards rendered, in order (none: "No active clusters detected."). *)
Definition cards (clusters : list Cluster) : list Card :=
  map card (sortedClusters clusters).

End RiskSidebar.

(** ** ClusterMap: capacity stress of a rendered hospital *)

Module ClusterMap.

(** [fullData.usage], of which only the ICU percentage is read here. *)
Record Usage : Set := mkUsage { icu_utilization : number }.

(** An entry of the [hospitals] prop; [usage] may be absent. *)
Record Hospital : Set := mkHospital {
  hospital_id : Z;
  usage : option Usage }.

(** An entry of [featuresToRender]. *)
Record Feature : Set := mkFeature {
  feature_hospital_id : Z;
  clusterColor : string }.

(** What [mergedFeatures] adds to a feature. *)
Record Merged : Set := mkMerged {
  markerColor : string;
  stressLevel : string }.

(** [hospitals?.find(h => h.hospital_id === f.hospital_id)] *)
Definition fullData (hospitals : list Hospital) (f : Feature)
  : option Hospital :=
  find (fun h => (hospital_id h =? feature_hospital_id f)%Z) hospitals.

(** The body of the callback of [featuresToRender.map]. *)
Definition mergeFeature (hospitals : list Hospital) (f : Feature) : Merged :=
  match fullData hospitals f with
  | Some h =>
      match usage h with
      | Some u =>
          let icuUtil := icu_utilization u in
          if num_gtb icuUtil (num 80) then
            mkMerged "red" "CRITICAL"
          else if num_gtb icuUtil (num 50) then
            mkMerged "orange" "Warning"
          else
            mkMerged "green" "Normal"
      | None => mkMerged (clusterColor f) "Normal"
      end
  | None => mkMerged (clusterColor f) "Normal"
  end.

Definition mergedFeatures (hospitals : list Hospital)
  (featuresToRender : list Feature) : list Merged :=
  map (mergeFeature hospitals) featuresToRender.

(** The palettes. *)
Definition COLOR_NAMES : list string :=
  ["blue"; "green"; "orange"; "yellow"; "violet"; "grey"; "black"]%string.

Definition HEX_COLORS : list string :=
  ["#2A81CB"; "#2AAD27"; "#CB8427"; "#CAC428"; "#9C2BCB"; "#7B7B7B";
   "#3D3D3D"]%string.

(** [PALETTE[idx % PALETTE.length]]; an index out of range would give
    [undefined]. *)
Definition paletteAt (palette : list string) (idx : nat) : string :=
  nth (idx mod List.length palette) palette "undefined"%string.

(** A member of a cluster as the map reads it: its id and its position
    ([h.latitude], [h.longitude]). *)
Record ClusterMember : Set := mkClusterMember {
  member_id : Z;
  member_point : ConvexHull.Point }.

Record MapCluster : Set := mkMapCluster {
  map_cluster_id : Z;
  map_members : list ClusterMember }.

(** The elements of an array with their indices, as [map((x, idx) => ...)]
    sees them. *)
Definition indexed {A : Type} (l : list A) : list (nat * A) :=
  combine (seq 0 (List.length l)) l.

(** An entry of [clusterHulls]. *)
Record ClusterHull : Set := mkClusterHull {
  clusterId : Z;
  positions : list ConvexHull.Tuple;
  color : string }.

(** [clusterHulls]: nothing without clusters, else one hull per cluster. *)
Definition clusterHulls (clusters : list MapCluster) : list ClusterHull :=
  match clusters with
  | [] => []
  | _ =>
      map (fun ic : nat * MapCluster =>
             let (idx, cluster) := ic in
             let points := map member_point (map_members cluster) in
             mkClusterHull (map_cluster_id cluster)
                           (ConvexHull.getConvexHull points)
                           (paletteAt HEX_COLORS idx))
          (indexed clusters)
  end.

(** A centre [[lat, lon]]; a coordinate is [None] when it is not a
    number (a cluster without members). *)
Definition Center : Set := (option number * option number)%type.

(** The object [centers], keyed by cluster id. *)
Definition Centers : Set := Z -> option Center.

(** [centers[id] = value] *)
Definition setCenter (centers : Centers) (id : Z) (value : Center)
  : Centers :=
  fun key => if (key =? id)%Z then Some value else centers key.

(** [clusterCenters]: the average position of the members of every
    cluster, under the cluster's id. *)
Definition clusterCenters (clusters : list MapCluster) : Centers :=
  fold_left
    (fun centers c =>
       setCenter centers (map_cluster_id c)
         (average (map (fun m => ConvexHull.latitude (member_point m))
                       (map_members c)),
          average (map (fun m => ConvexHull.longitude (member_point m))
                       (map_members c))))
    clusters (fun _ => None).

(** An edge of the [network] prop. *)
Record Edge : Set := mkEdge {
  source : Z;
  target : Z;
  strength : number }.

(** The line drawn for an edge: its two ends and its weight. *)
Record EdgeLine : Set := mkEdgeLine {
  line_start : Center;
  line_end : Center;
  line_weight : number }.

(** The callback of [network.map]: nothing is drawn when an end has no
    centre, else a line of weight [1 + edge.strength * 3]. *)
Definition renderEdge (centers : Centers) (edge : Edge) : option EdgeLine :=
  match centers (source edge), centers (target edge) with
  | Some s, Some e => Some (mkEdgeLine s e (1 + strength edge * num 3))
  | _, _ => None
  end.

(** An entry of [featuresToRender]: the feature with the [clusterId]
    spread into it, [None] for ['Unassigned']. *)
Record Rendered : Set := mkRendered {
  feature : Feature;
  renderedClusterId : option Z }.

(** [featuresToRender]: the members of the clusters, each with the colour
    of its cluster, or without clusters every hospital in grey. *)
Definition featuresToRender (clusters : list MapCluster)
  (hospitals : list Hospital) : list Rendered :=
  match clusters with
  | [] =>
      map (fun h => mkRendered (mkFeature (hospital_id h) "grey") None)
          hospitals
  | _ =>
      flat_map
        (fun ic : nat * MapCluster =>
           let (idx, cluster) := ic in
           map (fun h =>
                  mkRendered
                    (mkFeature (member_id h) (paletteAt COLOR_NAMES idx))
                    (Some (map_cluster_id cluster)))
               (map_members cluster))
        (indexed clusters)
  end.

(** The markers of the map: [mergedFeatures] over [featuresToRender]. *)
Definition markers (clusters : list MapCluster) (hospitals : list Hospital)
  : list Merged :=
  mergedFeatures hospitals (map feature (featuresToRender clusters hospitals)).

End ClusterMap.

(** ** SimulatorPanel: the request sent and the chart rows built *)

Module SimulatorPanel.

(** The JSON body of the POST to /api/simulation/predict. *)
Record SimRequest : Set := mkRequest {
  mask_compliance : number;
  lockdown_level : number }.

(** One day of a curve of the response. *)
Record CurvePoint : Set := mkCurvePoint {
  day : Z;
  infected : number }.

(** The response: [result.baseline] and [result.projected]. *)
Record SimResult : Set := mkResult {
  baseline : list CurvePoint;
  projected : list CurvePoint }.

(** A row handed to the chart. *)
Record ChartRow : Set := mkRow {
  row_day : string;
  row_baseline : number;
  row_projected : number }.

(** What the [try] block can end with. *)
Inductive outcome (A : Type) : Type :=
| Ok (a : A)
| TypeError.
Arguments Ok {A} a.
Arguments TypeError {A}.

(** The component's state. *)
Record PanelState : Set := mkState {
  maskCompliance : Z;
  lockdownLevel : Z;
  loading : bool;
  data : option (list ChartRow) }.

(** [{ mask_compliance: maskCompliance / 100,
       lockdown_level: lockdownLevel / 100 }] *)
Definition simulationRequest (st : PanelState) : SimRequest :=
  mkRequest (num (maskCompliance st) / num 100)
            (num (lockdownLevel st) / num 100).

(** [`Day ${b.day}`] *)
Definition dayLabel (d : Z) : string :=
  ("Day " ++ NilZero.string_of_int (Z.to_int d))%string.

(** [result.projected[i]]: [None] is [undefined], an index out of range. *)
Definition projectedAt (result : SimResult) (i : nat) : option CurvePoint :=
  nth_error (projected result) i.

(** The callback of [result.baseline.map], run from index [i] on over the
    rest of the baseline: reading [.infected] of [undefined] throws. *)
Fixpoint formatFrom (result : SimResult) (i : nat) (rest : list CurvePoint)
  : outcome (list ChartRow) :=
  match rest with
  | [] => Ok []
  | b :: rest' =>
      match projectedAt result i with
      | None => TypeError
      | Some p =>
          match formatFrom result (S i) rest' with
          | Ok rows => Ok (mkRow (dayLabel (day b)) (infected b) (infected p) :: rows)
          | TypeError => TypeError
          end
      end
  end.

(** [result.baseline.map((b, i) => ...)] *)
Definition formatted (result : SimResult) : outcome (list ChartRow) :=
  formatFrom result 0 (baseline result).

(** The indices at which [formatted] reads [result.projected]. *)
Definition accessedIndices (result : SimResult) : list nat :=
  seq 0 (List.length (baseline result)).

(** [runSimulation], with the server as a function from the request to
    its response: [setData] on success, the state's data kept when the
    [catch] runs; [loading] is cleared by the [finally]. *)
Definition runSimulation (server : SimRequest -> SimResult) (st : PanelState)
  : PanelState :=
  let result := server (simulationRequest st) in
  match formatted result with
  | Ok rows => mkState (maskCompliance st) (lockdownLevel st) false (Some rows)
  | TypeError => mkState (maskCompliance st) (lockdownLevel st) false (data st)
  end.

End SimulatorPanel.

(** ** SymptomChecker *)

Module SymptomChecker.

Record Answers : Set := mkAnswers {
  fever : bool;
  cough : bool;
  breathing : bool;
  sore_throat : bool;
  body_aches : bool;
  contact : bool }.

(** [calculateRisk()] on the current answers. *)
Definition calculateRisk (answers : Answers) : string :=
  if (fever answers && breathing answers) || (contact answers && fever answers)
  then "High"
  else if fever answers && (cough answers || sore_throat answers || body_aches answers)
  then "Moderate"
  else if fever answers || cough answers || contact answers || sore_throat answers
  then "Low"
  else "None".

(** [keyof typeof answers] *)
Inductive AnswerKey : Set :=
| key_fever | key_cough | key_breathing
| key_sore_throat | key_body_aches | key_contact.

(** [answers[key]] *)
Definition answer (key : AnswerKey) (answers : Answers) : bool :=
  match key with
  | key_fever => fever answers
  | key_cough => cough answers
  | key_breathing => breathing answers
  | key_sore_throat => sore_throat answers
  | key_body_aches => body_aches answers
  | key_contact => contact answers
  end.

(** [handleCheck(key)]: [{ ...prev, [key]: !prev[key] }] *)
Definition handleCheck (key : AnswerKey) (prev : Answers) : Answers :=
  match key with
  | key_fever =>
      mkAnswers (negb (fever prev)) (cough prev) (breathing prev)
                (sore_throat prev) (body_aches prev) (contact prev)
  | key_cough =>
      mkAnswers (fever prev) (negb (cough prev)) (breathing prev)
                (sore_throat prev) (body_aches prev) (contact prev)
  | key_breathing =>
      mkAnswers (fever prev) (cough prev) (negb (breathing prev))
                (sore_throat prev) (body_aches prev) (contact prev)
  | key_sore_throat =>
      mkAnswers (fever prev) (cough prev) (breathing prev)
                (negb (sore_throat prev)) (body_aches prev) (contact prev)
  | key_body_aches =>
      mkAnswers (fever prev) (cough prev) (breathing prev)
                (sore_throat prev) (negb (body_aches prev)) (contact prev)
  | key_contact =>
      mkAnswers (fever prev) (cough prev) (breathing prev)
                (sore_throat prev) (body_aches prev) (negb (contact prev))
  end.

(** What [getResult] returns, the icon apart. *)
Record Result : Set := mkResultCard {
  result_color : string;
  result_title : string;
  result_msg : string }.

(** [getResult()]: the [switch] on [calculateRisk()]. *)
Definition getResult (answers : Answers) : Result :=
  let risk := calculateRisk answers in
  if String.eqb risk "High" then
    mkResultCard "bg-red-500" "High Risk Detected"
      "Your symptoms indicate a potential serious infection or high exposure risk. Please visit the nearest hospital triage immediately."
  else if String.eqb risk "Moderate" then
    mkResultCard "bg-orange-500" "Moderate Risk"
      "You are showing some symptoms. Isolate yourself and monitor your temperature for the next 24 hours. If breathing becomes difficult, seek help."
  else
    mkResultCard "bg-green-500" "Low Risk"
      "Your responses do not indicate an immediate threat. Continue to practice social distancing and good hygiene.".

(** The answers [reset] sets. *)
Definition resetAnswers : Answers :=
  mkAnswers false false false false false false.

End SymptomChecker.

(** ** ReportModal: the symptoms selected for a report *)

Module ReportModal.

(** [symptoms.includes(sym)] *)
Definition includes (symptoms : list string) (sym : string) : bool :=
  existsb (String.eqb sym) symptoms.

(** [toggleSymptom(sym)]: the next value of [symptoms]. *)
Definition toggleSymptom (sym : string) (symptoms : list string)
  : list string :=
  if includes symptoms sym
  then filter (fun s => negb (String.eqb s sym)) symptoms
  else symptoms ++ [sym].

(** The selection after a run of clicks, from the initial [[]]. *)
Definition afterClicks (clicks : list string) : list string :=
  fold_left (fun symptoms sym => toggleSymptom sym symptoms) clicks [].

End ReportModal.

(** ** Dashboard (app/page.tsx): the time-lapse slider *)

Module Dashboard.

(** The state of the time-lapse: the dates of the history, the index of
    the slider and whether the playback runs. *)
Record Playback : Set := mkPlayback {
  dates : list string;
  sliderIndex : Z;
  isPlaying : bool }.

(** [useState([])], [useState(-1)], [useState(false)] *)
Definition initial : Playback := mkPlayback [] (-1) false.

(** [dates.length - 1] *)
Definition lastIndex (st : Playback) : Z :=
  Z.of_nat (List.length (dates st)) - 1.

(** [dates[sliderIndex]]; [None] is [undefined]. *)
Definition dateAt (st : Playback) : option string :=
  if (sliderIndex st <? 0)%Z then None
  else nth_error (dates st) (Z.to_nat (sliderIndex st)).

(** The history arrives: [setDates(sortedDates)] and
    [setSliderIndex(sortedDates.length - 1)]. *)
Definition historyLoaded (sortedDates : list string) (st : Playback)
  : Playback :=
  mkPlayback sortedDates (Z.of_nat (List.length sortedDates) - 1)
             (isPlaying st).

(** The callback of the playback interval: at the last date the playback
    stops and the index stays, else the index moves on by one. *)
Definition tick (st : Playback) : Playback :=
  if (lastIndex st <=? sliderIndex st)%Z
  then mkPlayback (dates st) (sliderIndex st) false
  else mkPlayback (dates st) (sliderIndex st + 1) (isPlaying st).

(** The playback effect, the interval apart: when the playback does not
    go on and the index is at the last date or beyond, it stops. *)
Definition playbackEffect (st : Playback) : Playback :=
  if isPlaying st && (sliderIndex st <? lastIndex st)%Z then st
  else if (lastIndex st <=? sliderIndex st)%Z
  then mkPlayback (dates st) (sliderIndex st) false
  else st.

(** A click on the play button: from the last date the slider goes back
    to the first one; the playback is switched on or off. *)
Definition playClicked (st : Playback) : Playback :=
  mkPlayback (dates st)
             (if (lastIndex st <=? sliderIndex st)%Z then 0
              else sliderIndex st)
             (negb (isPlaying st)).

(** The slider is moved to [value]: the playback stops. *)
Definition sliderChanged (value : Z) (st : Playback) : Playback :=
  mkPlayback (dates st) value false.

(** The states the dashboard can be in.  The button and the slider exist
    only with [dates.length > 0], and the slider gives an integer between
    its [min] 0 and its [max] [dates.length - 1]. *)
Inductive reachable : Playback -> Prop :=
| reach_initial : reachable initial
| reach_history sortedDates st :
    reachable st -> reachable (historyLoaded sortedDates st)
| reach_tick st : reachable st -> reachable (tick st)
| reach_effect st : reachable st -> reachable (playbackEffect st)
| reach_play st :
    reachable st -> dates st <> [] -> reachable (playClicked st)
| reach_slider value st :
    reachable st -> dates st <> [] ->
    (0 <= value <= lastIndex st)%Z ->
    reachable (sliderChanged value st).

End Dashboard.

(** ** Intervention simulator (SIR) *)

Module Simulator.

(** Modelled from the spec: the intervention simulator itself (the service
    behind /api/simulation/predict) is not among the sources.  The spec's
    section 4.4 gives the unit-step SIR update, the effective transmission
    rate and the two curves; section 6 makes every rate and level a value
    of [[0, 1]].  This record is one state [(S, I, R)] of a curve. *)
Record Compartments : Set := mkSIR {
  susceptible : number;
  infectious : number;
  recovered : number }.

(** Modelled from the spec: the simulator's configuration constants, the
    population [N] and the rates [beta_0] and [gamma] (section 4.4). *)
Record Config : Set := mkConfig {
  population : number;
  beta0 : number;
  gamma : number }.

(** Modelled from the spec: the effective transmission rate of the
    simulator, [beta_eff = beta_0 * (1 - 0.5*mask_compliance)
    * (1 - 0.8*lockdown_level)] (section 4.4). *)
Definition beta_eff (cfg : Config) (mask lockdown : number) : number :=
  beta0 cfg * (1 - Q2Qc (1 # 2) * mask) * (1 - Q2Qc (4 # 5) * lockdown).

(** Modelled from the spec: one unit time step of the simulator,
    [S' = S - b*S*I/N], [I' = I + b*S*I/N - g*I], [R' = R + g*I]
    (section 4.4). *)
Definition sir_step (cfg : Config) (b : number) (c : Compartments)
  : Compartments :=
  let S := susceptible c in
  let I := infectious c in
  let R := recovered c in
  let N := population cfg in
  let g := gamma cfg in
  mkSIR (S - b * S * I / N) (I + b * S * I / N - g * I) (R + g * I).

(** Modelled from the spec: a curve of the simulator, the state [c] and
    the [days] states that follow it, one step apart. *)
Fixpoint curve (cfg : Config) (b : number) (days : nat) (c : Compartments)
  : list Compartments :=
  match days with
  | O => [c]
  | S d => c :: curve cfg b d (sir_step cfg b c)
  end.

(** Modelled from the spec: [simulate] of the simulator, the baseline
    (both parameters 0) and the projected curve, from the same initial
    state and over the same horizon (sections 4.4 and 6). *)
Definition simulate (cfg : Config) (init : Compartments)
  (mask lockdown : number) (horizon : nat)
  : list Compartments * list Compartments :=
  (curve cfg (beta_eff cfg 0 0) horizon init,
   curve cfg (beta_eff cfg mask lockdown) horizon init).

(** A state of the curve within the population: every compartment in
    [[0, N]] and the three adding up to [N]. *)
Definition within (cfg : Config) (c : Compartments) : Prop :=
  0 <= susceptible c <= population cfg /\
  0 <= infectious c <= population cfg /\
  0 <= recovered c <= population cfg /\
  susceptible c + infectious c + recovered c = population cfg.

End Simulator.

(** * Properties *)

(** ** The convex hull *)

Section HullFacts.
Import ConvexHull.

(** The comparator orders points by longitude, then by latitude. *)
Lemma leb_lex (a b : Point) :
  PointOrder.leb a b = true <->
  longitude a < longitude b \/
  (longitude a = longitude b /\ latitude a <= latitude b).
Proof.
  unfold PointOrder.leb, compare_points. rewrite num_leb_le.
  destruct (num_eqb (longitude a) (longitude b)) eqn:E.
  - apply num_eqb_eq in E. split.
    + intros H. right. split; [exact E | qc_lra].
    + intros [H | [_ H]]; [rewrite E in H; qc_lra | qc_lra].
  - assert (longitude a <> longitude b) as N.
    { intros H. apply num_eqb_eq in H. congruence. }
    split.
    + intros H. left.
      assert (longitude a <= longitude b) as L by qc_lra.
      destruct (Qcle_lt_or_eq _ _ L); [assumption | contradiction].
    + intros [H | [H _]]; [qc_lra | contradiction].
Qed.

Lemma leb_trans (a b c : Point) :
  PointOrder.leb a b = true -> PointOrder.leb b c = true ->
  PointOrder.leb a c = true.
Proof.
  rewrite !leb_lex.
  intros [H1 | [H1 H1']] [H2 | [H2 H2']].
  - left. eapply Qclt_trans; eassumption.
  - left. rewrite <- H2. assumption.
  - left. rewrite H1. assumption.
  - right. split; [congruence | eapply Qcle_trans; eassumption].
Qed.

Lemma leb_antisym (a b : Point) :
  PointOrder.leb a b = true -> PointOrder.leb b a = true -> a = b.
Proof.
  rewrite !leb_lex.
  intros [H1 | [H1 H1']] [H2 | [H2 H2']].
  - exfalso. apply (Qclt_not_le _ _ H1). now apply Qclt_le_weak.
  - exfalso. rewrite H2 in H1. apply (Qclt_not_eq _ _ H1). reflexivity.
  - exfalso. rewrite H1 in H2. apply (Qclt_not_eq _ _ H2). reflexivity.
  - destruct a as [la lo], b as [lb lo']; simpl in *.
    f_equal; [now apply Qcle_antisym | assumption].
Qed.

(** Two sorted arrangements of the same points are the same list. *)
Lemma sorted_perm_unique (l1 l2 : list Point) :
  StronglySorted (fun x y => is_true (PointOrder.leb x y)) l1 ->
  StronglySorted (fun x y => is_true (PointOrder.leb x y)) l2 ->
  Permutation l1 l2 -> l1 = l2.
Proof.
  intros S1. revert l2.
  induction S1 as [| a l1 S1 IH F1]; intros l2 S2 P.
  - apply Permutation_nil in P. now subst.
  - destruct S2 as [| b l2 S2 F2].
    + apply Permutation_sym, Permutation_nil in P. discriminate.
    + assert (a = b) as E.
      { rewrite Forall_forall in F1, F2.
        assert (In a (b :: l2)) as Ia
          by (eapply Permutation_in; [exact P | now left]).
        assert (In b (a :: l1)) as Ib
          by (eapply Permutation_in;
              [apply Permutation_sym; exact P | now left]).
        destruct Ia as [Ia | Ia]; [now subst |].
        destruct Ib as [Ib | Ib]; [now subst |].
        apply leb_antisym; [apply F1, Ib | apply F2, Ia]. }
      subst b. f_equal. apply IH; [assumption |].
      eapply Permutation_cons_inv; exact P.
Qed.

(** Sorting makes the input order irrelevant. *)
Lemma sorted_points_perm (l l' : list Point) :
  Permutation l l' -> sorted_points l = sorted_points l'.
Proof.
  intros P. unfold sorted_points.
  assert (Transitive (fun x y => is_true (PointOrder.leb x y))) as T
    by (intros a b c; apply leb_trans).
  apply sorted_perm_unique.
  - apply PointSort.StronglySorted_sort, T.
  - apply PointSort.StronglySorted_sort, T.
  - eapply Permutation_trans;
      [apply Permutation_sym, PointSort.Permuted_sort |].
    eapply Permutation_trans; [exact P | apply PointSort.Permuted_sort].
Qed.

Lemma sorted_points_length (l : list Point) :
  List.length (sorted_points l) = List.length l.
Proof.
  symmetry. apply Permutation_length, PointSort.Permuted_sort.
Qed.

Lemma sorted_points_In (l : list Point) (p : Point) :
  In p (sorted_points l) -> In p l.
Proof.
  apply Permutation_in, Permutation_sym, PointSort.Permuted_sort.
Qed.

(** The [while] only removes points. *)
Lemma pop_while_In (hull : list Point) (p x : Point) :
  In x (pop_while hull p) -> In x hull.
Proof.
  induction hull as [| last rest IH]; simpl; [tauto |].
  destruct rest as [| prev rest']; [tauto |].
  destruct (num_leb (cross prev last p) 0); [| tauto].
  intros H. right. now apply IH.
Qed.

(** The [while] stops with one point left at the latest. *)
Lemma pop_while_nonempty (hull : list Point) (p : Point) :
  hull <> [] -> pop_while hull p <> [].
Proof.
  induction hull as [| last rest IH]; simpl; [congruence |].
  intros _. destruct rest as [| prev rest']; [discriminate |].
  destruct (num_leb (cross prev last p) 0); [| discriminate].
  apply IH. discriminate.
Qed.

Lemma hull_step_length (hull : list Point) (p : Point) :
  hull <> [] -> (2 <= List.length (hull_step hull p))%nat.
Proof.
  intros H. unfold hull_step. simpl.
  destruct (pop_while hull p) eqn:E.
  - exfalso. now apply (pop_while_nonempty hull p).
  - simpl. lia.
Qed.

Lemma fold_hull_length (ps hull : list Point) :
  (2 <= List.length hull)%nat ->
  (2 <= List.length (fold_left hull_step ps hull))%nat.
Proof.
  revert hull. induction ps as [| p ps IH]; intros hull H; simpl; [exact H |].
  apply IH, hull_step_length. destruct hull; simpl in H; [lia | discriminate].
Qed.

(** After two or more rounds a hull loop holds two or more points. *)
Lemma build_hull_length (ps : list Point) :
  (2 <= List.length ps)%nat -> (2 <= List.length (build_hull ps))%nat.
Proof.
  destruct ps as [| p1 [| p2 ps]]; simpl; try lia. intros _.
  unfold build_hull. simpl. apply fold_hull_length.
  apply hull_step_length. discriminate.
Qed.

Lemma fold_hull_In (ps hull : list Point) (x : Point) :
  In x (fold_left hull_step ps hull) -> In x ps \/ In x hull.
Proof.
  revert hull. induction ps as [| p ps IH]; intros hull; simpl; [tauto |].
  intros H. destruct (IH _ H) as [H' | H']; [tauto |].
  destruct H' as [H' | H']; [tauto |].
  right. eapply pop_while_In; eassumption.
Qed.

(** A hull loop keeps only points it was given. *)
Lemma build_hull_In (ps : list Point) (x : Point) :
  In x (build_hull ps) -> In x ps.
Proof.
  intros H. destruct (fold_hull_In _ _ _ H) as [H' | []]. exact H'.
Qed.

Lemma pop_In (hull : list Point) (x : Point) : In x (pop hull) -> In x hull.
Proof. destruct hull; simpl; tauto. Qed.

(** A square with a point inside: the boundary is the four corners,
    counter-clockwise from the lowest longitude and latitude. *)
Example getConvexHull_square :
  getConvexHull [pt 0 0; pt 2 0; pt 2 2; pt 0 2; pt 1 1]
  = map toTuple [pt 0 0; pt 0 2; pt 2 2; pt 2 0].
Proof. vm_compute. reflexivity. Qed.

(** Every three of the points are collinear: the cross product of the
    source vanishes on them. *)
Definition pairwise_collinear (points : list Point) : Prop :=
  forall o a b, In o points -> In a points -> In b points ->
                cross o a b = 0.

(** C5: fewer than three points come back as they were given, in the
    order given, each as its [[latitude, longitude]] tuple. *)
Theorem getConvexHull_few_points (points : list Point) :
  (List.length points < 3)%nat ->
  getConvexHull points = map (fun p => (latitude p, longitude p)) points.
Proof.
  intros H. unfold getConvexHull.
  apply Nat.ltb_lt in H. rewrite H. reflexivity.
Qed.

Lemma getConvexHull_few_points_witness :
  getConvexHull [pt 45 (-79); pt 44 (-80)]
  = map (fun p => (latitude p, longitude p)) [pt 45 (-79); pt 44 (-80)].
Proof.
  apply (getConvexHull_few_points [pt 45 (-79); pt 44 (-80)]).
  simpl. lia.
Defined.

(** C4: on a non-empty input the boundary is non-empty and every boundary
    tuple is the [[latitude, longitude]] of one of the input points. *)
Theorem getConvexHull_from_members (points : list Point) :
  points <> [] ->
  getConvexHull points <> [] /\
  forall t, In t (getConvexHull points) ->
            exists p, In p points /\ t = (latitude p, longitude p).
Proof.
  intros NE. unfold getConvexHull.
  destruct (List.length points <? 3)%nat eqn:L.
  - split.
    + destruct points; [congruence | discriminate].
    + intros t H. apply in_map_iff in H. destruct H as [p [E H]].
      exists p. split; [exact H | now rewrite <- E].
  - apply Nat.ltb_ge in L. split.
    + assert (2 <= List.length (build_hull (sorted_points points)))%nat as B.
      { apply build_hull_length. rewrite sorted_points_length. lia. }
      destruct (build_hull (sorted_points points)) as [| x [| y lower]];
        simpl in B; try lia.
      cbn [pop tl]. intros E. apply map_eq_nil, app_eq_nil in E.
      destruct E as [E _].
      apply (f_equal (@List.length Point)) in E.
      rewrite length_rev in E. discriminate.
    + intros t H. apply in_map_iff in H. destruct H as [p [E H]].
      exists p. split; [| now rewrite <- E].
      apply sorted_points_In.
      apply in_app_or in H.
      destruct H as [H | H]; apply in_rev, pop_In, build_hull_In in H.
      * exact H.
      * now apply in_rev.
Qed.

Lemma getConvexHull_from_members_witness :
  getConvexHull [pt 0 0; pt 2 0; pt 2 2; pt 0 2; pt 1 1] <> [] /\
  forall t, In t (getConvexHull [pt 0 0; pt 2 0; pt 2 2; pt 0 2; pt 1 1]) ->
            exists p, In p [pt 0 0; pt 2 0; pt 2 2; pt 0 2; pt 1 1] /\
                      t = (latitude p, longitude p).
Proof.
  apply (getConvexHull_from_members
           [pt 0 0; pt 2 0; pt 2 2; pt 0 2; pt 1 1]).
  discriminate.
Defined.

(** C2, as the code has it: of three or more points of which every three
    are collinear, the boundary has two or more tuples and each of them
    is the position of one of the input points; the input points need not
    all be among them. *)
Theorem getConvexHull_collinear_members (points : list Point) :
  (3 <= List.length points)%nat ->
  pairwise_collinear points ->
  (2 <= List.length (getConvexHull points))%nat /\
  forall t, In t (getConvexHull points) ->
            exists p, In p points /\ t = (latitude p, longitude p).
Proof.
  intros L _. unfold getConvexHull.
  assert ((List.length points <? 3)%nat = false) as L'
    by (apply Nat.ltb_ge; exact L).
  rewrite L'. split.
  - rewrite length_map, length_app, !length_rev.
    pose proof (sorted_points_length points) as SL.
    pose proof (build_hull_length (sorted_points points)) as A1.
    pose proof (build_hull_length (rev (sorted_points points))) as A2.
    rewrite length_rev in A2. unfold pop.
    destruct (build_hull (sorted_points points)) as [| x lower];
      [simpl in A1; lia |].
    destruct (build_hull (rev (sorted_points points))) as [| y upper];
      [simpl in A2; lia |].
    simpl in *. lia.
  - intros t H. apply in_map_iff in H. destruct H as [p [E H]].
    exists p. split; [| now rewrite <- E].
    apply sorted_points_In. apply in_app_or in H.
    destruct H as [H | H]; apply in_rev, pop_In, build_hull_In in H;
      [exact H | now apply in_rev].
Qed.

Lemma getConvexHull_collinear_members_witness :
  (2 <= List.length (getConvexHull [pt 2 2; pt 0 0; pt 1 1]))%nat /\
  forall t, In t (getConvexHull [pt 2 2; pt 0 0; pt 1 1]) ->
            exists p, In p [pt 2 2; pt 0 0; pt 1 1] /\
                      t = (latitude p, longitude p).
Proof.
  apply (getConvexHull_collinear_members [pt 2 2; pt 0 0; pt 1 1]).
  - simpl. lia.
  - intros o a b Ho Ha Hb. simpl in Ho, Ha, Hb.
    repeat match goal with
           | H : _ \/ _ |- _ => destruct H
           | H : False |- _ => destruct H
           end; subst; apply Qc_is_canon; reflexivity.
Defined.

(** C2, as stated, fails: of three collinear points the middle one is
    not on the boundary returned. *)
Lemma getConvexHull_collinear_drops_interior :
  pairwise_collinear [pt 0 0; pt 1 1; pt 2 2] /\
  getConvexHull [pt 0 0; pt 1 1; pt 2 2]
  = [toTuple (pt 0 0); toTuple (pt 2 2)] /\
  getConvexHull [pt 0 0; pt 1 1; pt 2 2]
  <> map toTuple [pt 0 0; pt 1 1; pt 2 2] /\
  ~ In (toTuple (pt 1 1)) (getConvexHull [pt 0 0; pt 1 1; pt 2 2]).
Proof.
  assert (getConvexHull [pt 0 0; pt 1 1; pt 2 2]
          = [toTuple (pt 0 0); toTuple (pt 2 2)]) as E
    by (vm_compute; reflexivity).
  split; [| split; [exact E | split]].
  - intros o a b Ho Ha Hb. simpl in Ho, Ha, Hb.
    repeat match goal with
           | H : _ \/ _ |- _ => destruct H
           | H : False |- _ => destruct H
           end; subst; apply Qc_is_canon; reflexivity.
  - rewrite E. discriminate.
  - rewrite E. intros [H | [H | []]]; vm_compute in H; discriminate.
Qed.

(** C9, as the code has it: on three or more points the boundary does
    not depend on the order in which the points are given. *)
Theorem getConvexHull_perm (l l' : list Point) :
  (3 <= List.length l)%nat ->
  Permutation l l' ->
  getConvexHull l = getConvexHull l'.
Proof.
  intros L P. unfold getConvexHull.
  rewrite <- (Permutation_length P).
  assert ((List.length l <? 3)%nat = false) as L'
    by (apply Nat.ltb_ge; exact L).
  rewrite L', (sorted_points_perm l l' P). reflexivity.
Qed.

Lemma getConvexHull_perm_witness :
  getConvexHull [pt 0 0; pt 2 0; pt 2 2; pt 0 2]
  = getConvexHull [pt 2 2; pt 0 2; pt 0 0; pt 2 0].
Proof.
  apply (getConvexHull_perm [pt 0 0; pt 2 0; pt 2 2; pt 0 2]
                            [pt 2 2; pt 0 2; pt 0 0; pt 2 0]).
  - simpl. lia.
  - apply perm_trans with [pt 2 2; pt 0 0; pt 2 0; pt 0 2].
    + apply perm_trans with [pt 0 0; pt 2 2; pt 2 0; pt 0 2].
      * apply perm_skip, perm_swap.
      * apply perm_swap.
    + apply perm_skip.
      apply perm_trans with [pt 0 0; pt 0 2; pt 2 0].
      * apply perm_skip, perm_swap.
      * apply perm_swap.
Defined.

(** C9, as stated, fails: two points come back in the order given. *)
Lemma getConvexHull_two_points_order :
  Permutation [pt 0 0; pt 1 1] [pt 1 1; pt 0 0] /\
  getConvexHull [pt 0 0; pt 1 1] <> getConvexHull [pt 1 1; pt 0 0].
Proof.
  split; [apply perm_swap |].
  intros H. vm_compute in H. discriminate.
Qed.

End HullFacts.

(** ** The risk label of the sidebar *)

Section RiskFacts.
Import RiskSidebar.

(** C1, as the code has it: more than three members make a cluster High,
    three or fewer make it Moderate; a cluster of exactly three members
    is Moderate. *)
Theorem riskLevel_by_size (cluster : Cluster) :
  ((3 < List.length (members cluster))%nat ->
   riskLevel cluster = "High"%string) /\
  ((List.length (members cluster) <= 3)%nat ->
   riskLevel cluster = "Moderate"%string) /\
  (List.length (members cluster) = 3%nat ->
   riskLevel cluster = "Moderate"%string).
Proof.
  unfold riskLevel.
  destruct (Nat.ltb_spec 3 (List.length (members cluster))) as [H | H].
  - repeat split; trivial; lia.
  - repeat split; trivial; lia.
Qed.

Lemma riskLevel_by_size_witness :
  riskLevel (cluster_of_size 4) = "High"%string /\
  riskLevel (cluster_of_size 2) = "Moderate"%string /\
  riskLevel (cluster_of_size 3) = "Moderate"%string.
Proof.
  split; [| split].
  - apply (proj1 (riskLevel_by_size (cluster_of_size 4))). simpl. lia.
  - apply (proj1 (proj2 (riskLevel_by_size (cluster_of_size 2)))).
    simpl. lia.
  - apply (proj2 (proj2 (riskLevel_by_size (cluster_of_size 3)))).
    reflexivity.
Defined.

(** C1, as stated, fails: a cluster of exactly three members is not
    High. *)
Lemma riskLevel_three_members :
  List.length (members (cluster_of_size 3)) = 3%nat /\
  riskLevel (cluster_of_size 3) = "Moderate"%string /\
  riskLevel (cluster_of_size 3) <> "High"%string.
Proof.
  repeat split. discriminate.
Qed.

End RiskFacts.

(** ** Capacity stress on the map *)

Section StressFacts.
Import ClusterMap.

(** C3, as the code has it: for a hospital found with usage data, an ICU
    utilization above 80 gives CRITICAL, one above 50 and up to 80 gives
    the level spelled Warning, and one of 50 or less gives Normal. *)
Theorem stressLevel_thresholds
  (hospitals : list Hospital) (f : Feature) (h : Hospital) (u : Usage) :
  fullData hospitals f = Some h ->
  usage h = Some u ->
  (num 80 < icu_utilization u ->
   stressLevel (mergeFeature hospitals f) = "CRITICAL"%string) /\
  (num 50 < icu_utilization u <= num 80 ->
   stressLevel (mergeFeature hospitals f) = "Warning"%string) /\
  (icu_utilization u <= num 50 ->
   stressLevel (mergeFeature hospitals f) = "Normal"%string).
Proof.
  intros Hf Hu. unfold mergeFeature. rewrite Hf, Hu. cbv zeta.
  destruct (num_gtb (icu_utilization u) (num 80)) eqn:E80;
    [apply num_gtb_gt in E80 | apply num_gtb_le in E80];
    (destruct (num_gtb (icu_utilization u) (num 50)) eqn:E50;
     [apply num_gtb_gt in E50 | apply num_gtb_le in E50]);
    cbn [stressLevel];
    repeat split; intros H; try reflexivity; exfalso; qc_lra.
Qed.

Lemma stressLevel_thresholds_witness :
  stressLevel (mergeFeature [mkHospital 7 (Some (mkUsage (num 65)))]
                            (mkFeature 7 "blue"))
  = "Warning"%string /\
  stressLevel (mergeFeature [mkHospital 7 (Some (mkUsage (num 90)))]
                            (mkFeature 7 "blue"))
  = "CRITICAL"%string.
Proof.
  split.
  - apply (proj1 (proj2 (stressLevel_thresholds
             [mkHospital 7 (Some (mkUsage (num 65)))] (mkFeature 7 "blue")
             (mkHospital 7 (Some (mkUsage (num 65)))) (mkUsage (num 65))
             eq_refl eq_refl))).
    split; vm_compute; [reflexivity | discriminate].
  - apply (proj1 (stressLevel_thresholds
             [mkHospital 7 (Some (mkUsage (num 90)))] (mkFeature 7 "blue")
             (mkHospital 7 (Some (mkUsage (num 90)))) (mkUsage (num 90))
             eq_refl eq_refl)).
    vm_compute. reflexivity.
Defined.

(** C3, as stated, fails: an ICU utilization of exactly 50 gives Normal,
    not a warning. *)
Lemma stressLevel_at_fifty :
  fullData [mkHospital 7 (Some (mkUsage (num 50)))] (mkFeature 7 "blue")
  = Some (mkHospital 7 (Some (mkUsage (num 50)))) /\
  num 50 <= num 50 <= num 80 /\
  stressLevel (mergeFeature [mkHospital 7 (Some (mkUsage (num 50)))]
                            (mkFeature 7 "blue"))
  = "Normal"%string /\
  stressLevel (mergeFeature [mkHospital 7 (Some (mkUsage (num 50)))]
                            (mkFeature 7 "blue"))
  <> "Warning"%string /\
  stressLevel (mergeFeature [mkHospital 7 (Some (mkUsage (num 50)))]
                            (mkFeature 7 "blue"))
  <> "WARNING"%string.
Proof.
  split; [reflexivity |]. split; [split; vm_compute; discriminate |].
  split; [reflexivity |]. split; vm_compute; discriminate.
Qed.

End StressFacts.

(** ** The simulator panel *)

Section PanelFacts.
Import SimulatorPanel.

Lemma num_percent (z : Z) :
  (0 <= z <= 100)%Z -> 0 <= num z / num 100 <= 1.
Proof.
  intros [H0 H100].
  rewrite Zle_Qle in H0, H100.
  qc_unfold. change (/ (100 # 1))%Q with (1 # 100)%Q.
  generalize dependent (inject_Z z). intros q H0 H100. lra.
Qed.

(** C7: with both sliders at integers of [[0, 100]], the two values sent
    in the request lie in [[0, 1]]. *)
Theorem simulationRequest_in_unit_interval (st : PanelState) :
  (0 <= maskCompliance st <= 100)%Z ->
  (0 <= lockdownLevel st <= 100)%Z ->
  0 <= mask_compliance (simulationRequest st) <= 1 /\
  0 <= lockdown_level (simulationRequest st) <= 1.
Proof.
  intros Hm Hl. unfold simulationRequest. cbn [mask_compliance lockdown_level].
  split; apply num_percent; assumption.
Qed.

Lemma simulationRequest_in_unit_interval_witness :
  0 <= mask_compliance (simulationRequest (mkState 40 100 false None)) <= 1 /\
  0 <= lockdown_level (simulationRequest (mkState 40 100 false None)) <= 1.
Proof.
  apply (simulationRequest_in_unit_interval (mkState 40 100 false None));
    simpl; lia.
Defined.

(** Building the rows from index [i] succeeds when the projected curve
    reaches as far as the rest of the baseline does. *)
Lemma formatFrom_in_range (result : SimResult) (rest : list CurvePoint) :
  forall i,
    (i + List.length rest <= List.length (projected result))%nat ->
    exists rows, formatFrom result i rest = Ok rows /\
                 List.length rows = List.length rest.
Proof.
  induction rest as [| b rest IH]; intros i H; simpl in *.
  - exists []. split; reflexivity.
  - unfold projectedAt.
    destruct (nth_error (projected result) i) as [p |] eqn:E.
    + destruct (IH (S i)) as [rows [E' L]]; [lia |].
      rewrite E'. eexists. split; [reflexivity |]. simpl. now rewrite L.
    + apply nth_error_None in E. lia.
Qed.

(** It throws when the rest of the baseline reaches further. *)
Lemma formatFrom_out_of_range (result : SimResult) (rest : list CurvePoint) :
  forall i,
    (i <= List.length (projected result))%nat ->
    (List.length (projected result) < i + List.length rest)%nat ->
    formatFrom result i rest = TypeError.
Proof.
  induction rest as [| b rest IH]; intros i Hi H; simpl in *; [lia |].
  unfold projectedAt.
  destruct (nth_error (projected result) i) as [p |] eqn:E; [| reflexivity].
  assert (i < List.length (projected result))%nat as Hlt
    by (apply nth_error_Some; congruence).
  rewrite IH by lia. reflexivity.
Qed.

(** C6: when the two curves of the response have the same length, every
    index at which the rows read the projected curve is in range and the
    rows are built, one per baseline day; when the projected curve is the
    shorter one, an index read is out of range and the formatting
    throws. *)
Theorem formatted_index_safety (result : SimResult) :
  (List.length (baseline result) = List.length (projected result) ->
   (forall i, In i (accessedIndices result) ->
              projectedAt result i <> None) /\
   exists rows, formatted result = Ok rows /\
                List.length rows = List.length (baseline result)) /\
  ((List.length (projected result) < List.length (baseline result))%nat ->
   (exists i, In i (accessedIndices result) /\
              projectedAt result i = None) /\
   formatted result = TypeError).
Proof.
  unfold accessedIndices, projectedAt, formatted. split; intros H.
  - split.
    + intros i Hi. apply in_seq in Hi. apply nth_error_Some. lia.
    + apply formatFrom_in_range. simpl. lia.
  - split.
    + exists (List.length (projected result)). split.
      * apply in_seq. lia.
      * apply nth_error_None. lia.
    + apply formatFrom_out_of_range; simpl; lia.
Qed.

Lemma formatted_index_safety_witness :
  (exists rows,
     formatted (mkResult [mkCurvePoint 1 (num 10); mkCurvePoint 2 (num 30)]
                         [mkCurvePoint 1 (num 10); mkCurvePoint 2 (num 20)])
     = Ok rows /\ List.length rows = 2%nat) /\
  formatted (mkResult [mkCurvePoint 1 (num 10); mkCurvePoint 2 (num 30)]
                      [mkCurvePoint 1 (num 10)])
  = TypeError.
Proof.
  split.
  - apply (proj2 (proj1 (formatted_index_safety
             (mkResult [mkCurvePoint 1 (num 10); mkCurvePoint 2 (num 30)]
                       [mkCurvePoint 1 (num 10); mkCurvePoint 2 (num 20)]))
             eq_refl)).
  - refine (proj2 (proj2 (formatted_index_safety
             (mkResult [mkCurvePoint 1 (num 10); mkCurvePoint 2 (num 30)]
                       [mkCurvePoint 1 (num 10)])) _)).
    simpl. lia.
Defined.

(** What [runSimulation] leaves in the state: the rows on success, the
    previous data when the formatting throws and the [catch] runs. *)
Lemma runSimulation_data (server : SimRequest -> SimResult) (st : PanelState) :
  (List.length (baseline (server (simulationRequest st)))
   = List.length (projected (server (simulationRequest st))) ->
   exists rows,
     data (runSimulation server st) = Some rows /\
     List.length rows
     = List.length (baseline (server (simulationRequest st)))) /\
  ((List.length (projected (server (simulationRequest st)))
    < List.length (baseline (server (simulationRequest st))))%nat ->
   data (runSimulation server st) = data st).
Proof.
  unfold runSimulation, formatted. cbv zeta.
  set (result := server (simulationRequest st)). split; intros H.
  - destruct (formatFrom_in_range result (baseline result) 0)
      as [rows [E L]]; [simpl; lia |].
    rewrite E. exists rows. split; [reflexivity | exact L].
  - rewrite formatFrom_out_of_range by (simpl; lia). reflexivity.
Qed.

End PanelFacts.

(** ** The symptom checker *)

Section SymptomFacts.
Import SymptomChecker.

(** C10: the result is one of the four labels, and difficulty breathing
    as the only answer ticked gives "None". *)
Theorem calculateRisk_labels :
  (forall answers : Answers,
     In (calculateRisk answers)
        ["High"; "Moderate"; "Low"; "None"]%string) /\
  calculateRisk (mkAnswers false false true false false false)
  = "None"%string.
Proof.
  split; [| reflexivity].
  intros [fe co br so bo ct]. unfold calculateRisk. simpl.
  destruct fe, co, br, so, bo, ct; simpl; tauto.
Qed.

End SymptomFacts.

(** ** The SIR curves *)

Section SimulatorFacts.
Import Simulator.

Lemma Qc_eq_Qeq (a b : Qc) : a = b <-> (this a == this b)%Q.
Proof.
  split; [intros H; rewrite H; reflexivity | apply Qc_is_canon].
Qed.

(** The new infections of one step are between nothing and all of the
    susceptible, on rationals. *)
Lemma new_infections_bounds (s i n b : Q) :
  (0 < n)%Q -> (0 <= b <= 1)%Q -> (0 <= s)%Q -> (0 <= i <= n)%Q ->
  (0 <= b * s * i * / n <= s)%Q.
Proof.
  intros Hn [Hb0 Hb1] Hs [Hi0 Hin].
  assert (0 < / n)%Q as Hk by (now apply Qinv_lt_0_compat).
  assert (n * / n == 1)%Q as Hnk by (apply Qmult_inv_r; lra).
  assert (0 <= i * / n <= 1)%Q as [Hx0 Hx1] by (split; nra).
  assert (0 <= b * (i * / n) <= 1)%Q as [Hy0 Hy1] by (split; nra).
  assert (b * s * i * / n == s * (b * (i * / n)))%Q as E by ring.
  rewrite E. split; nra.
Qed.

(** One step keeps the state within the population. *)
Lemma sir_step_within (cfg : Config) (b : number) (c : Compartments) :
  0 < population cfg -> 0 <= b <= 1 -> 0 <= gamma cfg <= 1 ->
  within cfg c -> within cfg (sir_step cfg b c).
Proof.
  destruct cfg as [n b0 g], c as [s i r].
  unfold within, sir_step.
  cbn [population gamma susceptible infectious recovered].
  intros Hn Hb Hg (Hs & Hi & Hr & Hsum).
  rewrite Qc_eq_Qeq in Hsum. rewrite Qc_eq_Qeq.
  qc_unfold.
  pose proof (new_infections_bounds s i n b Hn Hb (proj1 Hs) Hi) as [Hx0 Hx1].
  assert (0 <= g * i <= i)%Q as [Hg0 Hg1] by (split; nra).
  repeat split; lra.
Qed.

(** So does every state of a curve that starts within it. *)
Lemma curve_within (cfg : Config) (b : number) (days : nat) :
  0 < population cfg -> 0 <= b <= 1 -> 0 <= gamma cfg <= 1 ->
  forall c, within cfg c -> Forall (within cfg) (curve cfg b days c).
Proof.
  intros Hn Hb Hg.
  induction days as [| d IH]; intros c Hc; simpl.
  - constructor; [exact Hc | constructor].
  - constructor; [exact Hc |].
    apply IH, sir_step_within; assumption.
Qed.

(** The effective transmission rate stays a rate. *)
Lemma beta_eff_rate (cfg : Config) (mask lockdown : number) :
  0 <= beta0 cfg <= 1 -> 0 <= mask <= 1 -> 0 <= lockdown <= 1 ->
  0 <= beta_eff cfg mask lockdown <= 1.
Proof.
  destruct cfg as [n b0 g]. unfold beta_eff. cbn [beta0].
  intros Hb Hm Hl. qc_unfold.
  assert (0 <= b0 * (1 - (1 # 2) * mask) <= 1)%Q as [H0 H1]
    by (split; nra).
  split; nra.
Qed.

(** C8: with a positive population, rates and levels in [[0, 1]] and an
    initial state within the population, every state of the baseline and
    of the projected curve has its three compartments in [[0, N]] and
    adding up to [N]. *)
Theorem simulate_within_population
  (cfg : Config) (init : Compartments) (mask lockdown : number)
  (horizon : nat) :
  0 < population cfg ->
  0 <= beta0 cfg <= 1 ->
  0 <= gamma cfg <= 1 ->
  0 <= mask <= 1 ->
  0 <= lockdown <= 1 ->
  within cfg init ->
  Forall (within cfg) (fst (simulate cfg init mask lockdown horizon)) /\
  Forall (within cfg) (snd (simulate cfg init mask lockdown horizon)).
Proof.
  intros Hn Hb Hg Hm Hl Hi. unfold simulate. cbn [fst snd].
  assert (0 <= 0 <= 1) as Hz by (split; qc_lra).
  split; apply curve_within; try assumption;
    apply beta_eff_rate; assumption.
Qed.

Lemma simulate_within_population_witness :
  Forall (within (mkConfig (num 1000) (Q2Qc (3 # 10)) (Q2Qc (1 # 10))))
    (fst (simulate (mkConfig (num 1000) (Q2Qc (3 # 10)) (Q2Qc (1 # 10)))
                   (mkSIR (num 990) (num 10) (num 0))
                   (Q2Qc (1 # 2)) (Q2Qc (1 # 4)) 30)) /\
  Forall (within (mkConfig (num 1000) (Q2Qc (3 # 10)) (Q2Qc (1 # 10))))
    (snd (simulate (mkConfig (num 1000) (Q2Qc (3 # 10)) (Q2Qc (1 # 10)))
                   (mkSIR (num 990) (num 10) (num 0))
                   (Q2Qc (1 # 2)) (Q2Qc (1 # 4)) 30)).
Proof.
  apply (simulate_within_population
           (mkConfig (num 1000) (Q2Qc (3 # 10)) (Q2Qc (1 # 10)))
           (mkSIR (num 990) (num 10) (num 0))
           (Q2Qc (1 # 2)) (Q2Qc (1 # 4)) 30).
  - vm_compute. reflexivity.
  - split; vm_compute; discriminate.
  - split; vm_compute; discriminate.
  - split; vm_compute; discriminate.
  - split; vm_compute; discriminate.
  - unfold within. cbn [susceptible infectious recovered population].
    repeat split; vm_compute; discriminate.
Defined.

End SimulatorFacts.

(** ** More on the convex hull: the two chains *)

Section ChainFacts.
Import ConvexHull.

Section AnyCross.

(** The number that an evaluation of [cross(o, a, b)] yields in the
    source, with whatever rounding its arithmetic applies; [cross] above
    is the exact one. *)
Variable crossValue : Point -> Point -> Point -> number.

(** The inner [while] of a hull loop, as [pop_while], deciding on the
    value that [cross] yields. *)
Fixpoint pop_while_by (hull : list Point) (p : Point) : list Point :=
  match hull with
  | last :: ((prev :: _) as rest) =>
      if num_leb (crossValue prev last p) 0 then pop_while_by rest p
      else hull
  | _ => hull
  end.

(** One round of a hull loop, and a whole loop. *)
Definition hull_step_by (hull : list Point) (p : Point) : list Point :=
  p :: pop_while_by hull p.

Definition build_hull_by (ps : list Point) : list Point :=
  fold_left hull_step_by ps [].

(** The array [lower] when its loop ends, first element first. *)
Definition lowerChain (points : list Point) : list Point :=
  rev (build_hull_by (sorted_points points)).

(** The array [upper] when its loop ends, first element first. *)
Definition upperChain (points : list Point) : list Point :=
  rev (build_hull_by (rev (sorted_points points))).

(** A chain turns left at every point: on any three points in a row the
    value of [cross] is positive. *)
Definition turns_left (chain : list Point) : Prop :=
  forall pre a b c post,
    chain = pre ++ a :: b :: c :: post -> 0 < crossValue a b c.

(** The same on the back-to-front list of a hull loop. *)
Fixpoint strict_turns (hull : list Point) : Prop :=
  match hull with
  | c :: rest =>
      match rest with
      | b :: a :: _ => 0 < crossValue a b c
      | _ => True
      end /\ strict_turns rest
  | [] => True
  end.

Lemma num_leb_gt (a b : number) : num_leb a b = false <-> b < a.
Proof.
  unfold num_leb. change (b < a) with (a > b). rewrite Qcgt_alt.
  destruct (a ?= b); split; congruence.
Qed.

Lemma pop_while_turns (hull : list Point) (p : Point) :
  strict_turns hull -> strict_turns (pop_while_by hull p).
Proof.
  induction hull as [| last rest IH]; [trivial |].
  intros H. cbn [pop_while_by].
  destruct rest as [| prev rest']; [exact H |].
  destruct (num_leb (crossValue prev last p) 0); [| exact H].
  apply IH. exact (proj2 H).
Qed.

Lemma pop_while_top (hull : list Point) (p last prev : Point)
  (rest : list Point) :
  pop_while_by hull p = last :: prev :: rest -> 0 < crossValue prev last p.
Proof.
  induction hull as [| l r IH]; [discriminate |].
  cbn [pop_while_by]. destruct r as [| pv r']; [discriminate |].
  destruct (num_leb (crossValue pv l p) 0) eqn:E.
  - exact IH.
  - intros H. injection H as -> -> _. now apply num_leb_gt.
Qed.

Lemma hull_step_turns (hull : list Point) (p : Point) :
  strict_turns hull -> strict_turns (hull_step_by hull p).
Proof.
  intros H. unfold hull_step_by.
  pose proof (pop_while_turns hull p H) as T.
  pose proof (pop_while_top hull p) as Top.
  destruct (pop_while_by hull p) as [| last [| prev rest]].
  - simpl. tauto.
  - simpl. tauto.
  - split; [| exact T]. apply (Top last prev rest eq_refl).
Qed.

Lemma build_hull_turns (ps : list Point) : strict_turns (build_hull_by ps).
Proof.
  unfold build_hull_by.
  assert (forall hull, strict_turns hull ->
                       strict_turns (fold_left hull_step_by ps hull)) as G.
  { induction ps as [| p ps IH]; intros hull H; simpl; [exact H |].
    apply IH, hull_step_turns, H. }
  apply G. exact I.
Qed.

Lemma strict_turns_split (pre post : list Point) (a b c : Point) :
  strict_turns (pre ++ c :: b :: a :: post) -> 0 < crossValue a b c.
Proof.
  induction pre as [| x pre IH]; intros H.
  - exact (proj1 H).
  - apply IH. exact (proj2 H).
Qed.

Lemma rev_turns_left (hull : list Point) :
  strict_turns hull -> turns_left (rev hull).
Proof.
  intros H pre a b c post E.
  apply (f_equal (@rev Point)) in E. rewrite rev_involutive in E.
  rewrite rev_app_distr in E. cbn [rev] in E.
  rewrite <- !app_assoc in E. cbn [app] in E.
  rewrite E in H. eapply strict_turns_split. exact H.
Qed.

(** X1: whatever numbers the evaluations of [cross] yield, on any three
    points in a row of the array [lower], and of the array [upper], when
    its loop ends, the value that [cross] yields is positive: each chain
    turns left at every point, as the code measures it. *)
Theorem hull_chains_turn_left (points : list Point) :
  turns_left (lowerChain points) /\ turns_left (upperChain points).
Proof.
  split; apply rev_turns_left, build_hull_turns.
Qed.

End AnyCross.

(** With the exact [cross] these are the loops of [getConvexHull]. *)
Lemma build_hull_by_cross (ps : list Point) :
  build_hull_by cross ps = build_hull ps.
Proof.
  unfold build_hull_by, build_hull.
  assert (forall hull p, pop_while_by cross hull p = pop_while hull p) as P.
  { induction hull as [| l r IH]; intros p; [reflexivity |].
    cbn [pop_while_by pop_while]. destruct r as [| pv r']; [reflexivity |].
    destruct (num_leb (cross pv l p) 0); [apply IH | reflexivity]. }
  assert (forall hull, fold_left (hull_step_by cross) ps hull
                       = fold_left hull_step ps hull) as G.
  { induction ps as [| p ps IH]; intros hull; [reflexivity |].
    cbn [fold_left]. unfold hull_step_by, hull_step. rewrite P. apply IH. }
  apply G.
Qed.

Lemma removelast_rev (hull : list Point) :
  removelast (rev hull) = rev (tl hull).
Proof.
  destruct hull as [| x hull]; [reflexivity |].
  cbn [rev tl]. apply removelast_last.
Qed.

(** On three or more points the boundary is the two chains, each without
    its last point. *)
Lemma getConvexHull_chains (points : list Point) :
  (3 <= List.length points)%nat ->
  getConvexHull points
  = map toTuple (removelast (lowerChain cross points)
                 ++ removelast (upperChain cross points)).
Proof.
  intros L. unfold getConvexHull, lowerChain, upperChain, pop.
  assert ((List.length points <? 3)%nat = false) as L'
    by (apply Nat.ltb_ge; exact L).
  rewrite L', !removelast_rev. rewrite <- !build_hull_by_cross.
  reflexivity.
Qed.

Lemma pop_while_last (hull : list Point) (p d : Point) :
  List.last (pop_while hull p) d = List.last hull d.
Proof.
  induction hull as [| l r IH]; [reflexivity |].
  cbn [pop_while]. destruct r as [| pv r']; [reflexivity |].
  destruct (num_leb (cross pv l p) 0); [| reflexivity].
  rewrite IH. reflexivity.
Qed.

(** The first point pushed stays at the bottom of a hull loop. *)
Lemma fold_hull_last (ps hull : list Point) (d : Point) :
  hull <> [] ->
  List.last (fold_left hull_step ps hull) d = List.last hull d.
Proof.
  revert hull. induction ps as [| p ps IH]; intros hull H; [reflexivity |].
  cbn [fold_left]. rewrite IH by discriminate.
  unfold hull_step.
  pose proof (pop_while_nonempty hull p H) as NE.
  pose proof (pop_while_last hull p d) as E.
  destruct (pop_while hull p) as [| x rest]; [congruence |].
  exact E.
Qed.

(** The last point given is the last one pushed. *)
Lemma fold_hull_head (ps hull : list Point) (d : Point) :
  ps <> [] -> hd d (fold_left hull_step ps hull) = List.last ps d.
Proof.
  revert hull. induction ps as [| p ps IH]; intros hull H; [congruence |].
  cbn [fold_left]. destruct ps as [| q ps'].
  - reflexivity.
  - rewrite IH by discriminate. reflexivity.
Qed.

(** A hull loop over two or more points ends with the last point given
    on top and the first one at the bottom. *)
Lemma build_hull_ends (first : Point) (mid : list Point) (final : Point) :
  exists inner,
    build_hull (first :: mid ++ [final]) = final :: inner ++ [first].
Proof.
  pose proof (build_hull_length (first :: mid ++ [final])) as L.
  assert (hd first (build_hull (first :: mid ++ [final])) = final) as H.
  { unfold build_hull. rewrite fold_hull_head by discriminate.
    change (first :: mid ++ [final]) with ((first :: mid) ++ [final]).
    apply last_last. }
  assert (List.last (build_hull (first :: mid ++ [final])) final = first)
    as T.
  { unfold build_hull. cbn [fold_left].
    rewrite fold_hull_last by discriminate. reflexivity. }
  destruct (build_hull (first :: mid ++ [final])) as [| x [| y rest]].
  - simpl in L. rewrite length_app in L. simpl in L. lia.
  - simpl in L. rewrite length_app in L. simpl in L. lia.
  - simpl in H. subst x.
    destruct (@exists_last _ (y :: rest)) as [inner [z E]]; [discriminate |].
    rewrite E in *. exists inner.
    change (final :: inner ++ [z]) with ((final :: inner) ++ [z]) in T.
    rewrite last_last in T. now subst z.
Qed.

Lemma sorted_points_bounds (points : list Point) (lo hi : Point)
  (mid : list Point) :
  sorted_points points = lo :: mid ++ [hi] ->
  forall p, In p points ->
            longitude lo <= longitude p <= longitude hi.
Proof.
  intros E p Hp.
  assert (Transitive (fun x y => is_true (PointOrder.leb x y))) as T
    by (intros a b c; apply leb_trans).
  pose proof (PointSort.StronglySorted_sort points T) as S.
  fold (sorted_points points) in S.
  assert (In p (sorted_points points)) as Hs
    by (eapply Permutation_in; [apply PointSort.Permuted_sort | exact Hp]).
  rewrite E in S, Hs.
  assert (forall a b, PointOrder.leb a b = true ->
                      longitude a <= longitude b) as Le.
  { intros a b H. apply leb_lex in H. destruct H as [H | [H _]].
    - now apply Qclt_le_weak.
    - rewrite H. apply Qcle_refl. }
  split.
  - destruct Hs as [<- | Hs]; [apply Qcle_refl |].
    apply StronglySorted_inv in S. destruct S as [_ F].
    rewrite Forall_forall in F. apply Le, F, Hs.
  - change (lo :: mid ++ [hi]) with ((lo :: mid) ++ [hi]) in S, Hs.
    apply in_app_or in Hs. destruct Hs as [Hs | [<- | []]];
      [| apply Qcle_refl].
    clear E. induction (lo :: mid) as [| x l IH]; [destruct Hs |].
    cbn [app] in S. apply StronglySorted_inv in S. destruct S as [S F].
    destruct Hs as [<- | Hs].
    + rewrite Forall_forall in F. apply Le, F, in_or_app. right. now left.
    + apply IH; assumption.
Qed.

(** X2: on three or more points the boundary starts at the first point of
    the sorting order, a point of lowest longitude, and contains the last
    one, a point of highest longitude. *)
Theorem getConvexHull_extremes (points : list Point) :
  (3 <= List.length points)%nat ->
  exists lo hi before after,
    In lo points /\ In hi points /\
    (forall p, In p points ->
               longitude lo <= longitude p <= longitude hi) /\
    getConvexHull points = toTuple lo :: before ++ toTuple hi :: after.
Proof.
  intros L. unfold getConvexHull.
  assert ((List.length points <? 3)%nat = false) as L'
    by (apply Nat.ltb_ge; exact L).
  rewrite L'.
  pose proof (sorted_points_length points) as SL.
  pose proof (sorted_points_bounds points) as B.
  pose proof (sorted_points_In points) as SI.
  destruct (sorted_points points) as [| lo [| q ps]];
    simpl in SL; try lia.
  destruct (@exists_last _ (q :: ps)) as [mid [hi E]]; [discriminate |].
  rewrite E in *.
  destruct (build_hull_ends lo mid hi) as [low Low].
  assert (rev (lo :: mid ++ [hi]) = hi :: rev mid ++ [lo]) as R.
  { cbn [rev]. rewrite rev_app_distr. reflexivity. }
  destruct (build_hull_ends hi (rev mid) lo) as [up Up].
  rewrite R, Low, Up.
  exists lo, hi, (map toTuple (rev low)), (map toTuple (rev up)).
  split; [apply SI; now left |].
  split; [apply SI; right; apply in_or_app; right; now left |].
  split; [apply (B lo hi mid eq_refl) |].
  unfold pop. cbn [tl]. rewrite !rev_app_distr. cbn [rev app].
  cbn [map]. rewrite map_app. reflexivity.
Qed.

Lemma getConvexHull_extremes_witness :
  exists lo hi before after,
    In lo [pt 0 0; pt 2 0; pt 2 2; pt 0 2; pt 1 1] /\
    In hi [pt 0 0; pt 2 0; pt 2 2; pt 0 2; pt 1 1] /\
    (forall p, In p [pt 0 0; pt 2 0; pt 2 2; pt 0 2; pt 1 1] ->
               longitude lo <= longitude p <= longitude hi) /\
    getConvexHull [pt 0 0; pt 2 0; pt 2 2; pt 0 2; pt 1 1]
    = toTuple lo :: before ++ toTuple hi :: after.
Proof.
  apply (getConvexHull_extremes [pt 0 0; pt 2 0; pt 2 2; pt 0 2; pt 1 1]).
  simpl. lia.
Defined.

Lemma pop_while_length (hull : list Point) (p : Point) :
  (List.length (pop_while hull p) <= List.length hull)%nat.
Proof.
  induction hull as [| l r IH]; [simpl; lia |].
  cbn [pop_while]. destruct r as [| pv r']; [simpl; lia |].
  destruct (num_leb (cross pv l p) 0); simpl in *; lia.
Qed.

Lemma fold_hull_length_le (ps hull : list Point) :
  (List.length (fold_left hull_step ps hull)
   <= List.length ps + List.length hull)%nat.
Proof.
  revert hull. induction ps as [| p ps IH]; intros hull; simpl; [lia |].
  specialize (IH (hull_step hull p)).
  assert (List.length (hull_step hull p)
          = S (List.length (pop_while hull p))) as E by reflexivity.
  pose proof (pop_while_length hull p). lia.
Qed.

(** X3: on [n >= 3] points the boundary has at least two tuples and at
    most [2 n - 2]. *)
Theorem getConvexHull_length_bounds (points : list Point) :
  (3 <= List.length points)%nat ->
  (2 <= List.length (getConvexHull points)
   <= 2 * List.length points - 2)%nat.
Proof.
  intros L. unfold getConvexHull.
  assert ((List.length points <? 3)%nat = false) as L'
    by (apply Nat.ltb_ge; exact L).
  rewrite L'. rewrite length_map, length_app, !length_rev.
  pose proof (sorted_points_length points) as SL.
  pose proof (build_hull_length (sorted_points points)) as A1.
  pose proof (build_hull_length (rev (sorted_points points))) as A2.
  pose proof (fold_hull_length_le (sorted_points points) []) as B1.
  pose proof (fold_hull_length_le (rev (sorted_points points)) []) as B2.
  fold (build_hull (sorted_points points)) in B1.
  fold (build_hull (rev (sorted_points points))) in B2.
  rewrite length_rev in A2, B2. simpl in B1, B2.
  unfold pop.
  destruct (build_hull (sorted_points points)) as [| x lower];
    [simpl in A1; lia |].
  destruct (build_hull (rev (sorted_points points))) as [| y upper];
    [simpl in A2; lia |].
  simpl in *. lia.
Qed.

Lemma getConvexHull_length_bounds_witness :
  (2 <= List.length (getConvexHull [pt 0 0; pt 2 0; pt 2 2; pt 0 2; pt 1 1])
   <= 2 * List.length [pt 0 0; pt 2 0; pt 2 2; pt 0 2; pt 1 1] - 2)%nat.
Proof.
  apply (getConvexHull_length_bounds
           [pt 0 0; pt 2 0; pt 2 2; pt 0 2; pt 1 1]).
  simpl. lia.
Defined.

End ChainFacts.

(** ** The sidebar: order of the cards *)

Section SidebarFacts.
Import RiskSidebar.

(** Larger clusters first. *)
Definition larger_first (a b : Cluster) : Prop :=
  (List.length (members b) <= List.length (members a))%nat.

Lemma compare_clusters_le (a b : Cluster) :
  (compare_clusters a b <=? 0)%Z = true <-> larger_first a b.
Proof.
  unfold compare_clusters, larger_first. rewrite Z.leb_le. lia.
Qed.

Lemma insert_cluster_perm (c : Cluster) (l : list Cluster) :
  Permutation (c :: l) (insert_cluster c l).
Proof.
  induction l as [| d l IH]; simpl; [reflexivity |].
  destruct (compare_clusters c d <=? 0)%Z; [reflexivity |].
  apply perm_trans with (d :: c :: l); [apply perm_swap |].
  apply perm_skip, IH.
Qed.

Lemma insert_cluster_sorted (c : Cluster) (l : list Cluster) :
  StronglySorted larger_first l ->
  StronglySorted larger_first (insert_cluster c l).
Proof.
  induction 1 as [| d l S IH F]; simpl.
  - constructor; constructor.
  - destruct (compare_clusters c d <=? 0)%Z eqn:E.
    + apply compare_clusters_le in E.
      constructor; [constructor; assumption |].
      constructor; [exact E |].
      eapply Forall_impl; [| exact F].
      intros e He. unfold larger_first in *. lia.
    + assert (larger_first d c) as D.
      { unfold larger_first.
        destruct (Nat.le_gt_cases (List.length (members c))
                                  (List.length (members d)))
          as [H | H]; [exact H |].
        assert ((compare_clusters c d <=? 0)%Z = true) as T
          by (apply compare_clusters_le; unfold larger_first; lia).
        congruence. }
      constructor; [exact IH |].
      apply (Permutation_Forall (insert_cluster_perm c l)).
      constructor; assumption.
Qed.

Lemma sortedClusters_perm (clusters : list Cluster) :
  Permutation clusters (sortedClusters clusters).
Proof.
  unfold sortedClusters. induction clusters as [| c l P]; simpl.
  - constructor.
  - apply perm_trans with (c :: fold_right insert_cluster [] l).
    + apply perm_skip, P.
    + apply insert_cluster_perm.
Qed.

Lemma sortedClusters_sorted (clusters : list Cluster) :
  StronglySorted larger_first (sortedClusters clusters).
Proof.
  unfold sortedClusters. induction clusters as [| c l S]; simpl.
  - constructor.
  - apply insert_cluster_sorted, S.
Qed.

Lemma sortedClusters_sorted_length (clusters : list Cluster) :
  StronglySorted larger_first (sortedClusters clusters) /\
  List.length (sortedClusters clusters) = List.length clusters.
Proof.
  split; [apply sortedClusters_sorted |].
  symmetry. apply Permutation_length, sortedClusters_perm.
Qed.

(** X5: the sidebar lists every cluster exactly once, the ones with more
    members first. *)
Theorem sortedClusters_listing (clusters : list Cluster) :
  Permutation clusters (sortedClusters clusters) /\
  StronglySorted larger_first (sortedClusters clusters).
Proof.
  split; [apply sortedClusters_perm | apply sortedClusters_sorted].
Qed.

Lemma sorted_risks (l : list Cluster) :
  StronglySorted larger_first l ->
  exists k, (k <= List.length l)%nat /\
            map riskLevel l
            = repeat "High"%string k
              ++ repeat "Moderate"%string (List.length l - k).
Proof.
  induction 1 as [| c l Hs IH F].
  - exists 0%nat. split; [simpl; lia | reflexivity].
  - destruct (Nat.ltb_spec 3 (List.length (members c))) as [H | H].
    + destruct IH as [k [Hk E]]. exists (S k). split; [simpl; lia |].
      cbn [map List.length repeat app Nat.sub]. rewrite E.
      unfold riskLevel at 1.
      apply Nat.ltb_lt in H. rewrite H. reflexivity.
    + exists 0%nat. split; [simpl; lia |].
      cbn [repeat app]. rewrite Nat.sub_0_r.
      assert (forall l', Forall (larger_first c) l' ->
                map riskLevel l' = repeat "Moderate"%string (List.length l'))
        as A.
      { induction 1 as [| d l' Hd _ IH']; [reflexivity |].
        cbn [map List.length repeat]. rewrite IH'. f_equal.
        unfold riskLevel, larger_first in *.
        assert ((3 <? List.length (members d))%nat = false) as N
          by (apply Nat.ltb_ge; lia).
        now rewrite N. }
      cbn [map List.length repeat]. rewrite (A l F). f_equal.
      unfold riskLevel.
      assert ((3 <? List.length (members c))%nat = false) as N
        by (apply Nat.ltb_ge; lia).
      now rewrite N.
Qed.

(** X6: on the sidebar every High card comes before every Moderate
    card. *)
Theorem cards_high_first (clusters : list Cluster) :
  exists k, (k <= List.length clusters)%nat /\
            map card_risk (cards clusters)
            = repeat "High"%string k
              ++ repeat "Moderate"%string (List.length clusters - k).
Proof.
  destruct (sortedClusters_sorted_length clusters) as [S L].
  destruct (sorted_risks _ S) as [k [Hk E]].
  exists k. rewrite <- L. split; [exact Hk |].
  unfold cards. rewrite map_map. exact E.
Qed.

End SidebarFacts.

(** ** The map: zones, markers and spread lines *)

Section MapFacts.
Import ConvexHull ClusterMap.

(** Every boundary tuple is the position of an input point. *)
Lemma getConvexHull_In (points : list Point) (t : Tuple) :
  In t (getConvexHull points) -> exists p, In p points /\ t = toTuple p.
Proof.
  unfold getConvexHull.
  destruct (List.length points <? 3)%nat; intros H;
    apply in_map_iff in H; destruct H as [p [E H]]; exists p;
    (split; [| now rewrite <- E]); [exact H |].
  apply sorted_points_In. apply in_app_or in H.
  destruct H as [H | H]; apply in_rev, pop_In, build_hull_In in H;
    [exact H | now apply in_rev].
Qed.

Lemma indexed_from_snd {A : Type} (l : list A) (start : nat) :
  map snd (combine (seq start (List.length l)) l) = l.
Proof.
  revert start. induction l as [| x l IH]; intros start; simpl;
    [reflexivity | now rewrite IH].
Qed.

Lemma indexed_In {A : Type} (l : list A) (idx : nat) (x : A) :
  In (idx, x) (indexed l) -> In x l.
Proof. apply in_combine_r. Qed.

Lemma paletteAt_In (palette : list string) (idx : nat) :
  palette <> [] -> In (paletteAt palette idx) palette.
Proof.
  intros NE. unfold paletteAt. apply nth_In.
  apply Nat.mod_upper_bound. destruct palette; [congruence | discriminate].
Qed.

(** X8: the map draws one zone per cluster, in the order of the
    clusters and under their ids; its colour is one of the palette and
    every corner of it is the position of a member of that cluster. *)
Theorem clusterHulls_zones (clusters : list MapCluster) :
  map clusterId (clusterHulls clusters) = map map_cluster_id clusters /\
  forall zone, In zone (clusterHulls clusters) ->
    In (color zone) HEX_COLORS /\
    exists cluster,
      In cluster clusters /\
      clusterId zone = map_cluster_id cluster /\
      forall t, In t (positions zone) ->
        exists m, In m (map_members cluster) /\
                  t = toTuple (member_point m).
Proof.
  unfold clusterHulls. destruct clusters as [| c0 cs]; [split; [reflexivity | intros ? []] |].
  set (clusters := c0 :: cs). split.
  - rewrite map_map.
    rewrite <- (indexed_from_snd clusters 0) at 2. rewrite map_map.
    apply map_ext. intros [idx cluster]. reflexivity.
  - intros zone H. apply in_map_iff in H.
    destruct H as [[idx cluster] [<- H]]. cbn [color clusterId positions].
    split; [apply paletteAt_In; discriminate |].
    exists cluster. split; [eapply indexed_In; exact H |].
    split; [reflexivity |].
    intros t Ht. apply getConvexHull_In in Ht.
    destruct Ht as [p [Hp ->]]. apply in_map_iff in Hp.
    destruct Hp as [m [<- Hm]]. exists m. split; [exact Hm | reflexivity].
Qed.

Lemma rendered_ids_from (clusters : list MapCluster) (start : nat) :
  map feature_hospital_id
    (map feature
       (flat_map
          (fun ic : nat * MapCluster =>
             let (idx, cluster) := ic in
             map (fun h =>
                    mkRendered
                      (mkFeature (member_id h) (paletteAt COLOR_NAMES idx))
                      (Some (map_cluster_id cluster)))
                 (map_members cluster))
          (combine (seq start (List.length clusters)) clusters)))
  = flat_map (fun c => map member_id (map_members c)) clusters.
Proof.
  revert start. induction clusters as [| c cs IH]; intros start;
    [reflexivity |].
  cbn [List.length seq combine flat_map].
  rewrite !map_app, IH. f_equal.
  rewrite !map_map. reflexivity.
Qed.

(** X9: once there is a cluster, the hospitals that get a marker are the
    members of the clusters, in order, and no other: a hospital of the
    roster outside every cluster is not drawn. *)
Theorem featuresToRender_members_only
  (clusters : list MapCluster) (hospitals : list Hospital) :
  clusters <> [] ->
  map feature_hospital_id (map feature (featuresToRender clusters hospitals))
  = flat_map (fun c => map member_id (map_members c)) clusters.
Proof.
  intros NE. unfold featuresToRender.
  destruct clusters as [| c cs]; [congruence |].
  apply (rendered_ids_from (c :: cs) 0).
Qed.

Lemma featuresToRender_members_only_witness :
  map feature_hospital_id
    (map feature
       (featuresToRender
          [mkMapCluster 1 [mkClusterMember 10 (pt 44 (-80));
                           mkClusterMember 11 (pt 45 (-79))]]
          [mkHospital 10 None; mkHospital 11 None; mkHospital 12 None]))
  = flat_map (fun c => map member_id (map_members c))
      [mkMapCluster 1 [mkClusterMember 10 (pt 44 (-80));
                       mkClusterMember 11 (pt 45 (-79))]].
Proof.
  apply (featuresToRender_members_only
           [mkMapCluster 1 [mkClusterMember 10 (pt 44 (-80));
                            mkClusterMember 11 (pt 45 (-79))]]
           [mkHospital 10 None; mkHospital 11 None; mkHospital 12 None]).
  discriminate.
Defined.

(** The colour of a feature to render is a palette name or grey. *)
Lemma featuresToRender_color (clusters : list MapCluster)
  (hospitals : list Hospital) (r : Rendered) :
  In r (featuresToRender clusters hospitals) ->
  In (clusterColor (feature r)) COLOR_NAMES.
Proof.
  unfold featuresToRender. destruct clusters as [| c cs].
  - intros H. apply in_map_iff in H. destruct H as [h [<- _]].
    cbn [feature clusterColor]. simpl. tauto.
  - intros H. apply in_flat_map in H.
    destruct H as [[idx cluster] [_ H]].
    apply in_map_iff in H. destruct H as [m [<- _]].
    cbn [feature clusterColor]. apply paletteAt_In. discriminate.
Qed.

Lemma mergeFeature_red (hospitals : list Hospital) (f : Feature) :
  clusterColor f <> "red"%string ->
  markerColor (mergeFeature hospitals f) = "red"%string <->
  stressLevel (mergeFeature hospitals f) = "CRITICAL"%string.
Proof.
  intros NR. unfold mergeFeature.
  destruct (fullData hospitals f) as [h |];
    [destruct (usage h) as [u |] |].
  - cbv zeta.
    destruct (num_gtb (icu_utilization u) (num 80));
      [| destruct (num_gtb (icu_utilization u) (num 50))];
      cbn [markerColor stressLevel]; split; intros H;
      try reflexivity; discriminate.
  - cbn [markerColor stressLevel]. split; intros H;
      [contradiction | discriminate].
  - cbn [markerColor stressLevel]. split; intros H;
      [contradiction | discriminate].
Qed.

(** X10: among the markers of the map, the red ones are exactly those
    of hospitals under CRITICAL stress. *)
Theorem markers_red_iff_critical
  (clusters : list MapCluster) (hospitals : list Hospital) :
  forall marker, In marker (markers clusters hospitals) ->
    (markerColor marker = "red"%string <->
     stressLevel marker = "CRITICAL"%string).
Proof.
  intros marker H. unfold markers, mergedFeatures in H.
  rewrite map_map in H. apply in_map_iff in H.
  destruct H as [r [<- Hr]].
  apply mergeFeature_red.
  pose proof (featuresToRender_color _ _ _ Hr) as C.
  intros E. rewrite E in C. simpl in C.
  repeat (destruct C as [C | C]; [discriminate |]). exact C.
Qed.

Lemma markers_red_iff_critical_witness :
  markerColor (mkMerged "red" "CRITICAL") = "red"%string <->
  stressLevel (mkMerged "red" "CRITICAL") = "CRITICAL"%string.
Proof.
  apply (markers_red_iff_critical
           [mkMapCluster 1 [mkClusterMember 10 (pt 44 (-80))]]
           [mkHospital 10 (Some (mkUsage (num 90)))]
           (mkMerged "red" "CRITICAL")).
  vm_compute. left. reflexivity.
Defined.

(** X11: a feature whose hospital is not in the live list, or is there
    without usage data, keeps the colour of its cluster and is shown as
    Normal. *)
Theorem mergeFeature_without_usage
  (hospitals : list Hospital) (f : Feature) :
  (forall h, In h hospitals ->
             hospital_id h = feature_hospital_id f -> usage h = None) ->
  mergeFeature hospitals f = mkMerged (clusterColor f) "Normal".
Proof.
  intros H. unfold mergeFeature, fullData.
  destruct (find (fun h => (hospital_id h =? feature_hospital_id f)%Z)
                 hospitals) as [h |] eqn:E; [| reflexivity].
  apply find_some in E. destruct E as [Hin Hid].
  apply Z.eqb_eq in Hid. rewrite (H h Hin Hid). reflexivity.
Qed.

Lemma mergeFeature_without_usage_witness :
  mergeFeature [mkHospital 7 None; mkHospital 8 (Some (mkUsage (num 90)))]
               (mkFeature 7 "blue")
  = mkMerged "blue" "Normal".
Proof.
  apply (mergeFeature_without_usage
           [mkHospital 7 None; mkHospital 8 (Some (mkUsage (num 90)))]
           (mkFeature 7 "blue")).
  intros h [<- | [<- | []]]; simpl; [reflexivity | discriminate].
Defined.

Lemma clusterCenters_defined (clusters : list MapCluster) (id : Z) :
  (exists c, clusterCenters clusters id = Some c) <->
  In id (map map_cluster_id clusters).
Proof.
  unfold clusterCenters.
  set (step := fun (centers : Centers) (c : MapCluster) =>
         setCenter centers (map_cluster_id c)
           (average (map (fun m => latitude (member_point m))
                         (map_members c)),
            average (map (fun m => longitude (member_point m))
                         (map_members c)))).
  assert (forall init : Centers,
            (exists c, fold_left step clusters init id = Some c) <->
            In id (map map_cluster_id clusters) \/
            (exists c, init id = Some c)) as G.
  { induction clusters as [| c cs IH]; intros init; cbn [fold_left map In].
    - split; [intros H; now right | intros [[] | H]; exact H].
    - rewrite IH. unfold step, setCenter.
      destruct (Z.eqb_spec id (map_cluster_id c)) as [-> | N].
      + split; [intros _; left; now left | intros _; right; eauto].
      + split.
        * intros [H | H]; [left; now right | now right].
        * intros [[H | H] | H]; [congruence | now left | now right]. }
  rewrite G. split; [intros [H | [c H]] | intros H; now left].
  - exact H.
  - discriminate.
Qed.

(** X12: a spread line is drawn exactly for the edges of which both the
    source and the target are ids of clusters; any other edge is skipped. *)
Theorem renderEdge_drawn (clusters : list MapCluster) (edge : Edge) :
  (exists line, renderEdge (clusterCenters clusters) edge = Some line) <->
  In (source edge) (map map_cluster_id clusters) /\
  In (target edge) (map map_cluster_id clusters).
Proof.
  rewrite <- !clusterCenters_defined. unfold renderEdge.
  destruct (clusterCenters clusters (source edge)) as [s |];
    destruct (clusterCenters clusters (target edge)) as [e |].
  - split; eauto.
  - split; [intros [line H]; discriminate | intros [_ [c H]]; discriminate].
  - split; [intros [line H]; discriminate | intros [[c H] _]; discriminate].
  - split; [intros [line H]; discriminate | intros [[c H] _]; discriminate].
Qed.

End MapFacts.

(** ** The symptom checker: ticking boxes and the result shown *)

Section CheckerFacts.
Import SymptomChecker.

(** The tiers of [calculateRisk], lowest first. *)
Definition riskRank (risk : string) : nat :=
  if String.eqb risk "High" then 3
  else if String.eqb risk "Moderate" then 2
  else if String.eqb risk "Low" then 1
  else 0.

(** X13: ticking one more box never lowers the risk computed. *)
Theorem calculateRisk_monotone (key : AnswerKey) (answers : Answers) :
  answer key answers = false ->
  (riskRank (calculateRisk answers)
   <= riskRank (calculateRisk (handleCheck key answers)))%nat.
Proof.
  destruct answers as [fe co br so bo ct].
  destruct key; cbn [answer fever cough breathing sore_throat body_aches
                     contact];
    intros H; destruct fe, co, br, so, bo, ct;
    try discriminate H; vm_compute; repeat constructor.
Qed.

Lemma calculateRisk_monotone_witness :
  (riskRank (calculateRisk (mkAnswers true false false false false false))
   <= riskRank (calculateRisk
                  (handleCheck key_breathing
                     (mkAnswers true false false false false false))))%nat.
Proof.
  apply (calculateRisk_monotone key_breathing
           (mkAnswers true false false false false false)).
  reflexivity.
Defined.

(** X14: the result screen says "High Risk Detected" exactly with fever
    together with difficulty breathing or contact, "Moderate Risk"
    exactly with fever, neither of these two and a cough, a sore throat
    or body aches, and "Low Risk" in every other case, the one without
    any symptom included. *)
Theorem getResult_title (answers : Answers) :
  result_title (getResult answers)
  = if fever answers && (breathing answers || contact answers)
    then "High Risk Detected"%string
    else if fever answers
            && (cough answers || sore_throat answers || body_aches answers)
    then "Moderate Risk"%string
    else "Low Risk"%string.
Proof.
  destruct answers as [fe co br so bo ct].
  destruct fe, co, br, so, bo, ct; reflexivity.
Qed.

(** X15: ticking a box flips its answer and no other, and ticking it
    again restores the answers. *)
Theorem handleCheck_toggles (key : AnswerKey) (answers : Answers) :
  answer key (handleCheck key answers) = negb (answer key answers) /\
  (forall other, other <> key ->
     answer other (handleCheck key answers) = answer other answers) /\
  handleCheck key (handleCheck key answers) = answers.
Proof.
  destruct answers as [fe co br so bo ct]. split; [| split].
  - destruct key; reflexivity.
  - intros other N. destruct key, other; try reflexivity; congruence.
  - destruct key; cbn; rewrite negb_involutive; reflexivity.
Qed.

End CheckerFacts.

(** ** The report form: the symptoms selected *)

Section ReportFacts.
Import ReportModal.

Lemma includes_In (symptoms : list string) (sym : string) :
  includes symptoms sym = true <-> In sym symptoms.
Proof.
  unfold includes. rewrite existsb_exists. split.
  - intros [s [H E]]. apply String.eqb_eq in E. now subst.
  - intros H. exists sym. split; [exact H | apply String.eqb_refl].
Qed.

(** What a click does to the selection, symptom by symptom. *)
Lemma includes_toggle (sym s : string) (symptoms : list string) :
  includes (toggleSymptom sym symptoms) s
  = if String.eqb s sym then negb (includes symptoms s)
    else includes symptoms s.
Proof.
  unfold toggleSymptom.
  destruct (includes symptoms sym) eqn:I.
  - destruct (String.eqb_spec s sym) as [-> | N].
    + rewrite I. cbn [negb].
      destruct (includes (filter (fun s => negb (String.eqb s sym)) symptoms)
                         sym) eqn:F; [| reflexivity].
      apply includes_In, filter_In in F. destruct F as [_ F].
      rewrite String.eqb_refl in F. discriminate.
    + destruct (includes symptoms s) eqn:J.
      * apply includes_In. apply filter_In. split.
        -- now apply includes_In.
        -- apply negb_true_iff. now apply String.eqb_neq.
      * destruct (includes (filter (fun s => negb (String.eqb s sym))
                                   symptoms) s) eqn:F; [| reflexivity].
        apply includes_In, filter_In in F. destruct F as [F _].
        apply includes_In in F. congruence.
  - unfold includes at 1. rewrite existsb_app. cbn [existsb].
    rewrite orb_false_r. fold (includes symptoms s).
    destruct (String.eqb_spec s sym) as [-> | N].
    + rewrite I. reflexivity.
    + apply orb_false_r.
Qed.

Lemma toggleSymptom_NoDup (sym : string) (symptoms : list string) :
  NoDup symptoms -> NoDup (toggleSymptom sym symptoms).
Proof.
  intros H. unfold toggleSymptom.
  destruct (includes symptoms sym) eqn:I.
  - now apply NoDup_filter.
  - apply NoDup_app; [exact H | constructor; [intros [] | constructor] |].
    intros x Hx [<- | []]. apply includes_In in Hx. congruence.
Qed.

(** X16: a click on a symptom selects it when it was not selected and
    unselects it when it was; no other symptom changes, and the
    selection stays free of repetitions. *)
Theorem toggleSymptom_flips (sym : string) (symptoms : list string) :
  (In sym (toggleSymptom sym symptoms) <-> ~ In sym symptoms) /\
  (forall s, s <> sym ->
     (In s (toggleSymptom sym symptoms) <-> In s symptoms)) /\
  (NoDup symptoms -> NoDup (toggleSymptom sym symptoms)).
Proof.
  split; [| split].
  - rewrite <- !includes_In, includes_toggle, String.eqb_refl.
    destruct (includes symptoms sym); simpl; split; congruence.
  - intros s N. rewrite <- !includes_In, includes_toggle.
    apply String.eqb_neq in N. rewrite N. reflexivity.
  - apply toggleSymptom_NoDup.
Qed.

Lemma includes_fold (clicks : list string) (s : string) :
  forall init,
    includes (fold_left (fun symptoms sym => toggleSymptom sym symptoms)
                        clicks init) s
    = xorb (includes init s)
           (Nat.odd (count_occ string_dec clicks s)).
Proof.
  induction clicks as [| c clicks IH]; intros init; cbn [fold_left count_occ].
  - now rewrite xorb_false_r.
  - rewrite IH, includes_toggle.
    destruct (string_dec c s) as [-> | N].
    + rewrite String.eqb_refl, Nat.odd_succ, <- Nat.negb_odd.
      destruct (includes init s), (Nat.odd (count_occ string_dec clicks s));
        reflexivity.
    + assert (String.eqb s c = false) as E
        by (apply String.eqb_neq; congruence).
      rewrite E. reflexivity.
Qed.

(** X17: after any run of clicks from the empty selection, a symptom is
    selected exactly when it was clicked an odd number of times, and no
    symptom is selected twice. *)
Theorem afterClicks_selected (clicks : list string) :
  (forall s, In s (afterClicks clicks)
             <-> Nat.odd (count_occ string_dec clicks s) = true) /\
  NoDup (afterClicks clicks).
Proof.
  unfold afterClicks. split.
  - intros s. rewrite <- includes_In, includes_fold. reflexivity.
  - assert (forall init, NoDup init ->
              NoDup (fold_left (fun symptoms sym => toggleSymptom sym symptoms)
                               clicks init)) as G.
    { induction clicks as [| c clicks IH]; intros init H; simpl;
        [exact H | apply IH, toggleSymptom_NoDup, H]. }
    apply G. constructor.
Qed.

End ReportFacts.

(** ** The simulator panel: the rows of the chart *)

Section ChartFacts.
Import SimulatorPanel.

(** The row of one day: the baseline point with the projected point of
    the same index. *)
Definition rowOf (bp : CurvePoint * CurvePoint) : ChartRow :=
  mkRow (dayLabel (day (fst bp))) (infected (fst bp)) (infected (snd bp)).

Lemma skipn_nth_error {A : Type} (l : list A) (i : nat) (x : A) :
  nth_error l i = Some x -> skipn i l = x :: skipn (S i) l.
Proof.
  revert i. induction l as [| y l IH]; intros i H.
  - destruct i; discriminate.
  - destruct i as [| i].
    + injection H as ->. reflexivity.
    + apply (IH i H).
Qed.

Lemma formatFrom_rows (result : SimResult) (rest : list CurvePoint) :
  forall i,
    (i + List.length rest <= List.length (projected result))%nat ->
    formatFrom result i rest
    = Ok (map rowOf (combine rest (skipn i (projected result)))).
Proof.
  induction rest as [| b rest IH]; intros i H; [reflexivity |].
  cbn [formatFrom]. unfold projectedAt.
  destruct (nth_error (projected result) i) as [p |] eqn:E.
  - rewrite IH by (simpl in H; lia).
    rewrite (skipn_nth_error _ _ _ E). reflexivity.
  - apply nth_error_None in E. simpl in H. lia.
Qed.

(** X18: when the projected curve is at least as long as the baseline,
    the chart gets one row per baseline day, which pairs that day with
    the projected day of the same index; projected days beyond the
    baseline are left out. *)
Theorem formatted_rows (result : SimResult) :
  (List.length (baseline result) <= List.length (projected result))%nat ->
  formatted result
  = Ok (map rowOf (combine (baseline result) (projected result))).
Proof.
  intros H. unfold formatted.
  rewrite formatFrom_rows by (simpl; lia). reflexivity.
Qed.

Lemma formatted_rows_witness :
  formatted (mkResult [mkCurvePoint 1 (num 10)]
                      [mkCurvePoint 1 (num 8); mkCurvePoint 2 (num 20)])
  = Ok (map rowOf
          (combine [mkCurvePoint 1 (num 10)]
                   [mkCurvePoint 1 (num 8); mkCurvePoint 2 (num 20)])).
Proof.
  apply (formatted_rows
           (mkResult [mkCurvePoint 1 (num 10)]
                     [mkCurvePoint 1 (num 8); mkCurvePoint 2 (num 20)])).
  simpl. lia.
Defined.

(** A server that answers every request with the same curves. *)
Definition fixedServer (result : SimResult) : SimRequest -> SimResult :=
  fun _ => result.

Lemma runSimulation_data_witness :
  (exists rows,
     data (runSimulation
             (fixedServer (mkResult [mkCurvePoint 1 (num 10)]
                                    [mkCurvePoint 1 (num 8)]))
             (mkState 40 100 true None))
     = Some rows /\ List.length rows = 1%nat) /\
  data (runSimulation
          (fixedServer (mkResult [mkCurvePoint 1 (num 10)] []))
          (mkState 40 100 true None))
  = None.
Proof.
  split.
  - apply (proj1 (runSimulation_data
             (fixedServer (mkResult [mkCurvePoint 1 (num 10)]
                                    [mkCurvePoint 1 (num 8)]))
             (mkState 40 100 true None)) eq_refl).
  - refine (proj2 (runSimulation_data
             (fixedServer (mkResult [mkCurvePoint 1 (num 10)] []))
             (mkState 40 100 true None)) _).
    simpl. lia.
Defined.

End ChartFacts.

(** ** The time-lapse slider *)

Section PlaybackFacts.
Import Dashboard.

(** The slider is on a date of the history, or there is no history and
    it is at -1. *)
Definition on_a_date (st : Playback) : Prop :=
  (dates st = [] /\ sliderIndex st = (-1)%Z) \/
  (0 <= sliderIndex st <= lastIndex st)%Z.

Lemma reachable_on_a_date (st : Playback) : reachable st -> on_a_date st.
Proof.
  unfold on_a_date.
  induction 1 as [| sorted st R IH | st R IH | st R IH | st R IH NE
                  | value st R IH NE V].
  - left. split; reflexivity.
  - unfold historyLoaded, lastIndex. cbn [dates sliderIndex].
    destruct sorted as [| d ds]; [left; split; reflexivity |].
    right. cbn [List.length]. lia.
  - unfold tick, lastIndex in *.
    destruct (Z.leb_spec (Z.of_nat (List.length (dates st)) - 1)
                         (sliderIndex st));
      cbn [dates sliderIndex]; [exact IH |].
    right. destruct IH as [[E1 E2] | IH]; [| lia].
    rewrite E1 in *. simpl in *. lia.
  - unfold playbackEffect.
    destruct (isPlaying st && (sliderIndex st <? lastIndex st)%Z);
      [exact IH |].
    destruct (lastIndex st <=? sliderIndex st)%Z; exact IH.
  - right. unfold playClicked, lastIndex in *. cbn [dates sliderIndex].
    destruct IH as [[E _] | IH]; [congruence |].
    destruct (Z.leb_spec (Z.of_nat (List.length (dates st)) - 1)
                         (sliderIndex st)); lia.
  - right. exact V.
Qed.

(** X20: in every state the dashboard can reach, the slider is on a date
    of the history: [dates[sliderIndex]] is defined, unless the history
    is empty and the slider still at -1. *)
Theorem reachable_date_defined (st : Playback) :
  reachable st ->
  (dates st = [] /\ sliderIndex st = (-1)%Z /\ dateAt st = None) \/
  (exists date, dateAt st = Some date).
Proof.
  intros R. apply reachable_on_a_date in R. unfold dateAt.
  destruct R as [[E1 E2] | [H0 H1]].
  - left. rewrite E2. repeat split; assumption.
  - right. destruct (Z.ltb_spec (sliderIndex st) 0) as [N | _]; [lia |].
    destruct (nth_error (dates st) (Z.to_nat (sliderIndex st))) as [d |]
      eqn:E; [now exists d |].
    apply nth_error_None in E. unfold lastIndex in H1. lia.
Qed.

Lemma reachable_date_defined_witness :
  (dates (tick (playClicked (historyLoaded ["2024-01-01"; "2024-01-02"]%string
                                           initial))) = [] /\
   sliderIndex (tick (playClicked (historyLoaded ["2024-01-01"; "2024-01-02"]%string
                                                 initial))) = (-1)%Z /\
   dateAt (tick (playClicked (historyLoaded ["2024-01-01"; "2024-01-02"]%string
                                            initial))) = None) \/
  (exists date,
     dateAt (tick (playClicked (historyLoaded ["2024-01-01"; "2024-01-02"]%string
                                              initial))) = Some date).
Proof.
  apply (reachable_date_defined
           (tick (playClicked (historyLoaded ["2024-01-01"; "2024-01-02"]%string
                                             initial)))).
  apply reach_tick, reach_play; [| discriminate].
  apply reach_history, reach_initial.
Defined.

(** Whether the playback effect has left an interval running:
    [isPlaying && sliderIndex < dates.length - 1]. *)
Definition intervalRunning (st : Playback) : bool :=
  isPlaying st && (sliderIndex st <? lastIndex st)%Z.

(** One round of the playback, from a state as rendered: with an
    interval running its callback runs once, the index changes, the
    interval is cleared and the effect runs on the new state; without
    one, only the effect runs. *)
Definition playbackRound (st : Playback) : Playback :=
  if intervalRunning st then playbackEffect (tick st)
  else playbackEffect st.

Fixpoint rounds (n : nat) (st : Playback) : Playback :=
  match n with
  | O => st
  | S n' => rounds n' (playbackRound st)
  end.

Lemma rounds_S (n : nat) (st : Playback) :
  rounds (S n) st = rounds n (playbackRound st).
Proof. reflexivity. Qed.

Lemma rounds_stopped (dts : list string) (n : nat) :
  rounds n (mkPlayback dts (Z.of_nat (List.length dts) - 1) false)
  = mkPlayback dts (Z.of_nat (List.length dts) - 1) false.
Proof.
  induction n as [| n IH]; [reflexivity |].
  cbn [rounds]. unfold playbackRound, intervalRunning, playbackEffect.
  cbn [isPlaying andb]. unfold lastIndex. cbn [dates sliderIndex].
  rewrite Z.leb_refl. exact IH.
Qed.

Lemma rounds_run (n : nat) :
  forall st,
    isPlaying st = true ->
    (lastIndex st - sliderIndex st = Z.of_nat n)%Z ->
    (forall k, (k <= n)%nat ->
       sliderIndex (rounds k st) = (sliderIndex st + Z.of_nat k)%Z) /\
    sliderIndex (rounds (S n) st) = lastIndex st /\
    isPlaying (rounds (S n) st) = false.
Proof.
  induction n as [| n IH]; intros [dts idx playing] P D;
    unfold lastIndex in *; cbn [dates sliderIndex isPlaying] in *;
    subst playing.
  - assert (idx = Z.of_nat (List.length dts) - 1)%Z as -> by lia.
    split; [| split].
    + intros k Hk. assert (k = 0%nat) as -> by lia. cbn [rounds sliderIndex].
      lia.
    + cbn [rounds]. unfold playbackRound, intervalRunning, playbackEffect.
      cbn [isPlaying andb]. unfold lastIndex. cbn [dates sliderIndex].
      rewrite Z.ltb_irrefl, Z.leb_refl. reflexivity.
    + cbn [rounds]. unfold playbackRound, intervalRunning, playbackEffect.
      cbn [isPlaying andb]. unfold lastIndex. cbn [dates sliderIndex].
      rewrite Z.ltb_irrefl, Z.leb_refl. reflexivity.
  - assert (playbackRound (mkPlayback dts idx true)
            = if (idx + 1 <? Z.of_nat (List.length dts) - 1)%Z
              then mkPlayback dts (idx + 1) true
              else mkPlayback dts (idx + 1) false) as R.
    { unfold playbackRound, intervalRunning, tick.
      cbn [isPlaying andb]. unfold lastIndex. cbn [dates sliderIndex].
      assert ((idx <? Z.of_nat (List.length dts) - 1)%Z = true) as E1
        by (apply Z.ltb_lt; lia).
      assert ((Z.of_nat (List.length dts) - 1 <=? idx)%Z = false) as E2
        by (apply Z.leb_gt; lia).
      rewrite E1, E2. unfold playbackEffect.
      cbn [isPlaying andb]. unfold lastIndex. cbn [dates sliderIndex].
      destruct (Z.ltb_spec (idx + 1) (Z.of_nat (List.length dts) - 1))
        as [Lt | Ge]; [reflexivity |].
      assert ((Z.of_nat (List.length dts) - 1 <=? idx + 1)%Z = true) as E3
        by (apply Z.leb_le; lia).
      rewrite E3. reflexivity. }
    destruct (Z.ltb_spec (idx + 1) (Z.of_nat (List.length dts) - 1))
      as [Lt | Ge].
    + destruct (IH (mkPlayback dts (idx + 1) true)) as [I1 [I2 I3]];
        [reflexivity | unfold lastIndex; cbn [dates sliderIndex]; lia |].
      unfold lastIndex in *. cbn [dates sliderIndex] in *.
      split; [| split].
      * intros [| k] Hk; [cbn [rounds sliderIndex]; lia |].
        rewrite rounds_S, R, I1 by lia. lia.
      * rewrite rounds_S, R. exact I2.
      * rewrite rounds_S, R. exact I3.
    + assert (idx + 1 = Z.of_nat (List.length dts) - 1)%Z as E by lia.
      assert (n = 0%nat) as -> by lia.
      rewrite E in R.
      split; [| split].
      * intros [| [| k]] Hk; [cbn [rounds sliderIndex]; lia | | lia].
        rewrite rounds_S, R. cbn [rounds sliderIndex]. lia.
      * rewrite rounds_S, R, rounds_stopped. reflexivity.
      * rewrite rounds_S, R, rounds_stopped. reflexivity.
Qed.

(** X21: from a reachable state in which the playback runs, each round
    of the playback moves the slider on by one date up to the last date,
    and one round later the slider is on the last date and the playback
    is off. *)
Theorem playback_runs_to_the_last_date (st : Playback) :
  reachable st ->
  isPlaying st = true ->
  (forall k, (Z.of_nat k <= lastIndex st - sliderIndex st)%Z ->
     sliderIndex (rounds k st) = (sliderIndex st + Z.of_nat k)%Z) /\
  sliderIndex
    (rounds (S (Z.to_nat (lastIndex st - sliderIndex st))) st)
  = lastIndex st /\
  isPlaying
    (rounds (S (Z.to_nat (lastIndex st - sliderIndex st))) st)
  = false.
Proof.
  intros R P. pose proof (reachable_on_a_date st R) as D.
  assert (0 <= lastIndex st - sliderIndex st)%Z as N.
  { unfold on_a_date, lastIndex in *.
    destruct D as [[E1 E2] | D];
      [rewrite E1 in *; cbn [List.length] in *; lia | lia]. }
  destruct (rounds_run (Z.to_nat (lastIndex st - sliderIndex st)) st P)
    as [H1 [H2 H3]]; [lia |].
  split; [| split; assumption].
  intros k Hk. apply H1. lia.
Qed.

Lemma playback_runs_to_the_last_date_witness :
  (forall k, (Z.of_nat k <= 2)%Z ->
     sliderIndex
       (rounds k (playClicked
                    (historyLoaded ["2024-01-01"; "2024-01-02";
                                    "2024-01-03"]%string initial)))
     = (0 + Z.of_nat k)%Z) /\
  sliderIndex
    (rounds 3 (playClicked
                 (historyLoaded ["2024-01-01"; "2024-01-02";
                                 "2024-01-03"]%string initial)))
  = 2%Z /\
  isPlaying
    (rounds 3 (playClicked
                 (historyLoaded ["2024-01-01"; "2024-01-02";
                                 "2024-01-03"]%string initial)))
  = false.
Proof.
  apply (playback_runs_to_the_last_date
           (playClicked
              (historyLoaded ["2024-01-01"; "2024-01-02";
                              "2024-01-03"]%string initial))).
  - apply reach_play; [| discriminate].
    apply reach_history, reach_initial.
  - reflexivity.
Defined.

End PlaybackFacts.
